(** * insert_data_mac: CSV normalisation and batched upsert

    A shallow embedding of the two loader scripts
    [optimised_insert_peaple_data.py] (people) and
    [insert_company_with_csv.py] (companies), with the properties of the
    normaliser and of the batch upserter stated and proved over it.

    Conventions.
    - A Python [str] is a [string]; a character is its code point, and the
      character classes below reproduce Python's on the code points 0..255.
    - A [dict] with string keys is a [gmap string _]; [d.get(k, dflt)] is
      [get d k dflt].
    - A raised exception is [None] (or a dedicated outcome constructor where
      the caller distinguishes it).
    - The database is a list of stored rows in insertion order. *)

From Stdlib Require Import ZArith NArith Ascii String List Bool Lia.
From stdpp Require Import base option list strings gmap.

Local Open Scope Z_scope.

(** ** Python string primitives *)

Module Py.

Definition code (c : ascii) : N := N_of_ascii c.

(** [str.isspace] on one character: TAB..CR, FS..US, SPACE, NEL, NBSP. *)
Definition isspace (c : ascii) : bool :=
  let n := code c in
  ((9 <=? n) && (n <=? 13) || (28 <=? n) && (n <=? 32)
   || (n =? 133) || (n =? 160))%N.

(** The decimal digits ['0'..'9'], the only characters that regex [\d]
    matches below code point 256. *)
Definition isdecimal (c : ascii) : bool :=
  let n := code c in ((48 <=? n) && (n <=? 57))%N.

(** [str.isdigit] on one character: the decimal digits and the
    superscripts 2, 3 and 1, which [int] does not accept. *)
Definition isdigit_char (c : ascii) : bool :=
  let n := code c in
  (isdecimal c || (n =? 178) || (n =? 179) || (n =? 185))%N.

Definition digit_value (c : ascii) : Z := Z.of_N (code c) - 48.

(** [str.lower] on one character: A..Z and the Latin-1 capitals
    (all of 192..222 but the multiplication sign 215). *)
Definition lower_char (c : ascii) : ascii :=
  let n := code c in
  if ((65 <=? n) && (n <=? 90)
      || (192 <=? n) && (n <=? 222) && negb (n =? 215))%N
  then ascii_of_N (n + 32) else c.

Fixpoint lower (s : string) : string :=
  match s with
  | EmptyString => EmptyString
  | String c r => String (lower_char c) (lower r)
  end.

Fixpoint all_chars (p : ascii -> bool) (s : string) : bool :=
  match s with
  | EmptyString => true
  | String c r => p c && all_chars p r
  end.

Fixpoint filter_chars (p : ascii -> bool) (s : string) : string :=
  match s with
  | EmptyString => EmptyString
  | String c r => if p c then String c (filter_chars p r) else filter_chars p r
  end.

Fixpoint lstrip_with (p : ascii -> bool) (s : string) : string :=
  match s with
  | EmptyString => EmptyString
  | String c r => if p c then lstrip_with p r else s
  end.

Fixpoint rstrip_with (p : ascii -> bool) (s : string) : string :=
  match s with
  | EmptyString => EmptyString
  | String c r =>
      match rstrip_with p r with
      | EmptyString => if p c then EmptyString else String c EmptyString
      | r' => String c r'
      end
  end.

(** [s.strip()] *)
Definition strip (s : string) : string :=
  rstrip_with isspace (lstrip_with isspace s).

(** [s.rstrip('/')] *)
Definition rstrip_char (ch : ascii) (s : string) : string :=
  rstrip_with (Ascii.eqb ch) s.

(** [s.replace(ch, '')] for a one-character [ch]. *)
Definition remove_char (ch : ascii) (s : string) : string :=
  filter_chars (fun c => negb (Ascii.eqb ch c)) s.

(** [s.split(sep)] for a one-character separator. *)
Fixpoint split (sep : ascii) (s : string) : list string :=
  match s with
  | EmptyString => [EmptyString]
  | String c r =>
      if Ascii.eqb sep c then EmptyString :: split sep r
      else match split sep r with
           | h :: t => String c h :: t
           | [] => [String c EmptyString]
           end
  end.

(** [sub in s] *)
Fixpoint contains (sub s : string) : bool :=
  String.prefix sub s
  || match s with
     | EmptyString => false
     | String _ r => contains sub r
     end.

(** [any(x in s for x in subs)] *)
Definition any_in (subs : list string) (s : string) : bool :=
  existsb (fun x => contains x s) subs.

(** [x in l] and [l.index(x)] on a list of strings. *)
Definition mem (x : string) (l : list string) : bool :=
  existsb (String.eqb x) l.

Fixpoint index (x : string) (l : list string) : option nat :=
  match l with
  | [] => None
  | y :: t => if String.eqb x y then Some 0%nat else S <$> index x t
  end.

(** Value of a run of decimal digits, most significant first. *)
Fixpoint digits_value (acc : Z) (s : string) : Z :=
  match s with
  | EmptyString => acc
  | String c r => digits_value (10 * acc + digit_value c) r
  end.

(** The digit groups of an integer literal: decimal digits, with single
    underscores allowed between two digits. [prev] tells whether the
    previous character was a digit. *)
Fixpoint int_body (prev : bool) (acc : Z) (s : string) : option Z :=
  match s with
  | EmptyString => if prev then Some acc else None
  | String c r =>
      if isdecimal c then int_body true (10 * acc + digit_value c) r
      else if Ascii.eqb c "_" then
             if prev then int_body false acc r else None
           else None
  end.

(** The white space that [int] skips at both ends of its argument:
    [str.isspace] without FS..US. *)
Definition int_space (c : ascii) : bool :=
  let n := code c in
  ((9 <=? n) && (n <=? 13) || (n =? 32) || (n =? 133) || (n =? 160))%N.

(** [int(s)] for a string argument; [None] is [ValueError]. The
    interpreter's limit on the number of digits is left out. *)
Definition int (s : string) : option Z :=
  match rstrip_with int_space (lstrip_with int_space s) with
  | String "+" r => int_body false 0 r
  | String "-" r => Z.opp <$> int_body false 0 r
  | t => int_body false 0 t
  end.

(** [re.sub(r'\s+', '', s)] *)
Definition sub_spaces (s : string) : string :=
  filter_chars (fun c => negb (isspace c)) s.

(** [re.sub(r'employees?', '', s)]: scanning from the left, each
    occurrence of "employee" and an "s" right after it are dropped.
    [skip] counts the characters of the current match still to drop. *)
Fixpoint sub_employees_go (skip : nat) (s : string) : string :=
  match s with
  | EmptyString => EmptyString
  | String c r =>
      match skip with
      | S k => sub_employees_go k r
      | O =>
          if String.prefix "employees" s then sub_employees_go 8 r
          else if String.prefix "employee" s then sub_employees_go 7 r
          else String c (sub_employees_go 0 r)
      end
  end.

Definition sub_employees (s : string) : string := sub_employees_go 0 s.

(** [re.findall(r'\d+', s)[0]], when [findall] returns a non-empty list:
    the leftmost maximal run of decimal digits. *)
Fixpoint take_digits (s : string) : string :=
  match s with
  | EmptyString => EmptyString
  | String c r => if isdecimal c then String c (take_digits r) else EmptyString
  end.

Definition first_number (s : string) : option string :=
  match lstrip_with (fun c => negb (isdecimal c)) s with
  | EmptyString => None
  | t => Some (take_digits t)
  end.

(** Truthiness of a string: [if s]. *)
Definition truthy (s : string) : bool :=
  match s with EmptyString => false | _ => true end.

(** [d.get(k, dflt)] *)
Definition get {V} (d : gmap string V) (k : string) (dflt : V) : V :=
  default dflt (d !! k).

End Py.

(** ** Values and records *)

(** A Python value as the scripts produce them, which is also what a
    database column holds: [None]/NULL, a string, an integer, a float with
    an integral value (the only float in the program is the literal [5.0]),
    or a timestamp. *)
Inductive value : Type :=
| VNone
| VStr (s : string)
| VInt (z : Z)
| VFloat (z : Z)
| VTime (t : Z).

Global Instance value_eq_dec : EqDecision value.
Proof. solve_decision. Defined.

(** [s or None] *)
Definition or_none (s : string) : value :=
  if Py.truthy s then VStr s else VNone.

Definition of_option (o : option string) : value :=
  match o with Some s => VStr s | None => VNone end.

(** A raw CSV row, as [csv.DictReader] yields it for a line that has a
    field for every column of the header. *)
Abbreviation raw_record := (gmap string string).

(** A record with named fields: [process_csv_row]'s result, a company. *)
Abbreviation record := (gmap string value).

(** ** The storage layer *)

(** One row of a [VALUES] list. *)
Abbreviation tuple := (list value).

(** A stored row maps column names to values; a column that is not there
    reads as NULL. A table is the list of its rows, oldest first. *)
Abbreviation table := (list record).

Module Sql.

Inductive conflict_action : Type :=
| DoNothing
| DoUpdateSet (cols : list string).   (* SET c = EXCLUDED.c for c in cols *)

(** [INSERT INTO t (target_columns) VALUES %s
     ON CONFLICT (conflict_target) on_conflict], with the one fact about
    the table [t] that the command depends on: whether the unique index
    over [conflict_target] keeps NULLs distinct from each other, as a
    UNIQUE constraint does unless it is declared NULLS NOT DISTINCT. *)
Record insert_stmt : Type := {
  target_columns : list string;
  conflict_target : list string;
  nulls_distinct : bool;
  on_conflict : conflict_action
}.

Definition col (r : record) (c : string) : value := Py.get r c VNone.

Definition is_null (v : value) : bool :=
  match v with VNone => true | _ => false end.

Definition key_of (target : list string) (r : record) : list value :=
  map (col r) target.

(** Can the key of the proposed row [r] be equal to another key at all?
    Not when it holds a NULL and NULLs are distinct. *)
Definition comparable (stmt : insert_stmt) (r : record) : bool :=
  negb (nulls_distinct stmt)
  || forallb (fun v => negb (is_null v)) (key_of (conflict_target stmt) r).

(** The proposed row [r] collides with the stored row [e] on the unique
    index of the conflict target. *)
Definition collide (stmt : insert_stmt) (r e : record) : bool :=
  comparable stmt r
  && bool_decide (key_of (conflict_target stmt) r
                  = key_of (conflict_target stmt) e).

(** During one command every row carries a flag: has this command
    already inserted or updated it? *)
Fixpoint find_conflict (stmt : insert_stmt) (r : record)
    (work : list (record * bool)) : option nat :=
  match work with
  | [] => None
  | (e, _) :: rest =>
      if collide stmt r e then Some 0%nat
      else S <$> find_conflict stmt r rest
  end.

(** [e] with the columns [cols] taken from the proposed row [r]. *)
Definition set_excluded (cols : list string) (r e : record) : record :=
  foldr (fun c acc => <[c := col r c]> acc) e cols.

(** One proposed row. [None] is the error "ON CONFLICT DO UPDATE command
    cannot affect row a second time". *)
Definition insert_row (stmt : insert_stmt) (work : list (record * bool))
    (r : record) : option (list (record * bool)) :=
  match find_conflict stmt r work with
  | None => Some (work ++ [(r, true)])
  | Some i =>
      match on_conflict stmt with
      | DoNothing => Some work
      | DoUpdateSet cols =>
          match work !! i with
          | Some (e, false) => Some (<[i := (set_excluded cols r e, true)]> work)
          | _ => None
          end
      end
  end.

Fixpoint insert_rows (stmt : insert_stmt) (work : list (record * bool))
    (rows : list record) : option (list (record * bool)) :=
  match rows with
  | [] => Some work
  | r :: rest =>
      match insert_row stmt work r with
      | Some work' => insert_rows stmt work' rest
      | None => None
      end
  end.

(** The row a tuple proposes: the target columns paired with its values. *)
Definition proposed (stmt : insert_stmt) (t : tuple) : record :=
  list_to_map (zip (target_columns stmt) t).

(** One [INSERT] command with its [VALUES] list. [None] is an error: a
    tuple with more or fewer values than there are target columns is
    refused before any row is written. *)
Definition exec (stmt : insert_stmt) (tbl : table) (values : list tuple)
  : option table :=
  if forallb (fun t => (length t =? length (target_columns stmt))%nat) values
  then map fst <$> insert_rows stmt (map (fun e => (e, false)) tbl)
                               (map (proposed stmt) values)
  else None.

(** The slices [l[0:n]], [l[n:2n]], ... of a non-empty step [n]. *)
Fixpoint chunks_go {A} (fuel n : nat) (l : list A) : list (list A) :=
  match fuel, l with
  | _, [] => []
  | O, _ => []
  | S f, _ => take n l :: chunks_go f n (drop n l)
  end.

Definition chunks {A} (n : nat) (l : list A) : list (list A) :=
  chunks_go (length l) n l.

Fixpoint exec_pages (stmt : insert_stmt) (tbl : table)
    (pages : list (list tuple)) : option table :=
  match pages with
  | [] => Some tbl
  | page :: rest =>
      match exec stmt tbl page with
      | Some tbl' => exec_pages stmt tbl' rest
      | None => None
      end
  end.

(** psycopg2's [execute_values(cursor, sql, argslist, page_size)]
    followed by [commit]: one command per page, all in one transaction.
    [None] when a command raises; nothing is committed then. A page size
    below 1 makes the first page empty, which raises. *)
Definition execute_values (stmt : insert_stmt) (tbl : table)
    (argslist : list tuple) (page_size : Z) : option table :=
  if page_size <=? 0 then None
  else exec_pages stmt tbl (chunks (Z.to_nat page_size) argslist).

End Sql.

(** The storage operation the loaders call: statement, committed table,
    rows, page size; the new committed table, or [None] when the write or
    its commit raises. *)
Abbreviation storage :=
  (Sql.insert_stmt -> table -> list tuple -> Z -> option table).

(** ** The people script *)

Module People.

Definition ALLOWED_SIZES : list string :=
  [ "10,001+ employees"; "5,001-10,000 employees"; "1,001-5,000 employees";
    "501-1,000 employees"; "201-500 employees"; "51-200 employees";
    "11-50 employees"; "1-10 employees" ].

Definition INSERT_COLUMNS : list string :=
  [ "company_name"; "name"; "title"; "linkedin_id"; "location"; "department";
    "size"; "company_id"; "seniority_level"; "years_experience"; "skills";
    "education"; "profile_photo_url"; "email_address"; "phone_number";
    "last_updated_at"; "confidence_score"; "intent_signals";
    "company_funding_stage"; "job_change_date"; "technologies";
    "enrichment_status"; "last_enriched_at"; "work_email_enriched";
    "linkedin_url_enriched"; "social_profiles_enriched";
    "person_highlights_enriched"; "company_domain_enriched"; "user_id";
    "created_at"; "updated_at"; "popularity_index" ].

(** *** normalize_size *)

(** The chain of comparisons on the employee count (lines 77-84). *)
Definition bucket_by_count (count : Z) : string :=
  if 10001 <=? count then "10,001+ employees"
  else if 5001 <=? count then "5,001-10,000 employees"
  else if 1001 <=? count then "1,001-5,000 employees"
  else if 501 <=? count then "501-1,000 employees"
  else if 201 <=? count then "201-500 employees"
  else if 51 <=? count then "51-200 employees"
  else if 11 <=? count then "11-50 employees"
  else "1-10 employees".

(** The chain of comparisons on the first number of the size text
    (lines 108-115). *)
Definition bucket_by_lower (lower : Z) : string :=
  if 10000 <=? lower then "10,001+ employees"
  else if 5000 <=? lower then "5,001-10,000 employees"
  else if 1000 <=? lower then "1,001-5,000 employees"
  else if 500 <=? lower then "501-1,000 employees"
  else if 200 <=? lower then "201-500 employees"
  else if 50 <=? lower then "51-200 employees"
  else if 10 <=? lower then "11-50 employees"
  else "1-10 employees".

Definition size_mapping : gmap string string :=
  list_to_map
    [ ("10000+", "10,001+ employees"); ("10001+", "10,001+ employees");
      ("5000-10000", "5,001-10,000 employees");
      ("5001-10000", "5,001-10,000 employees");
      ("1000-5000", "1,001-5,000 employees");
      ("1001-5000", "1,001-5,000 employees");
      ("500-1000", "501-1,000 employees"); ("501-1000", "501-1,000 employees");
      ("250-500", "201-500 employees"); ("201-500", "201-500 employees");
      ("100-250", "51-200 employees"); ("51-200", "51-200 employees");
      ("11-50", "11-50 employees"); ("1-10", "1-10 employees");
      ("1-100", "51-200 employees") ].

(** Lines 74-76: the count the numeric path works on. [None] when the
    cleaned string is empty or not all digits, and when [int] raises
    [ValueError] (caught at line 85). *)
Definition numeric_count (employee_count_str : string) : option Z :=
  let count_str := Py.strip (Py.remove_char "," employee_count_str) in
  if Py.truthy count_str && Py.all_chars Py.isdigit_char count_str
  then Py.int count_str
  else None.

(** Lines 88 and 99-100. *)
Definition size_text (employee_size_str : string) : string :=
  if Py.truthy employee_size_str
  then Py.strip (Py.lower employee_size_str) else "".

Definition clean_size (size_str : string) : string :=
  Py.sub_employees (Py.sub_spaces size_str).

Definition normalize_size (employee_count_str employee_size_str : string)
  : option string :=
  if negb (Py.truthy employee_count_str) && negb (Py.truthy employee_size_str)
  then None
  else
    match numeric_count employee_count_str with
    | Some count => Some (bucket_by_count count)
    | None =>
        let size_str := size_text employee_size_str in
        match size_mapping !! clean_size size_str with
        | Some label => Some label
        | None =>
            match Py.first_number size_str with
            | Some number => Some (bucket_by_lower (Py.digits_value 0 number))
            | None => None
            end
        end
    end.

(** *** infer_seniority_level *)

Definition infer_seniority_level (title : option string) : option string :=
  match title with
  | None => None
  | Some t =>
      if negb (Py.truthy t) then None
      else
        let title_lower := Py.lower t in
        if Py.any_in ["ceo"; "cfo"; "cto"; "coo"; "cmo"; "chief";
                      "president"; "founder"] title_lower
        then Some "C-Suite"
        else if Py.any_in ["evp"; "svp"; "executive vice president";
                           "senior vice president"] title_lower
        then Some "VP"
        else if Py.any_in ["vice president"; " vp"; "vp "] title_lower
        then Some "VP"
        else if Py.any_in ["director"; "head of"] title_lower
        then Some "Director"
        else if Py.contains "manager" title_lower
        then Some "Manager"
        else if Py.any_in ["senior"; "sr."; "lead"; "principal"] title_lower
        then Some "Senior"
        else Some "Individual Contributor"
  end.

(** *** process_csv_row *)

(** [row.get(k, '').strip()] *)
Definition field (row : raw_record) (k : string) : string :=
  Py.strip (Py.get row k "").

Definition full_name (row : raw_record) : string :=
  Py.strip (field row "First Name" ++ " " ++ field row "Last Name").

(** [', '.join(parts)] *)
Fixpoint join_comma (parts : list string) : string :=
  match parts with
  | [] => ""
  | [p] => p
  | p :: rest => p ++ ", " ++ join_comma rest
  end.

Definition location (row : raw_record) : option string :=
  let location_parts :=
    List.filter Py.truthy
                [field row "City"; field row "State"; field row "Country"] in
  match location_parts with
  | [] => None
  | _ => Some (join_comma location_parts)
  end.

(** Lines 160-167. *)
Definition linkedin_id (linkedin_url : string) : option string :=
  if Py.truthy linkedin_url then
    let parts := Py.split "/" (Py.rstrip_char "/" linkedin_url) in
    if Py.mem "in" parts then
      match Py.index "in" parts with
      | Some idx => parts !! (idx + 1)%nat
      | None => None
      end
    else None
  else None.

Definition title_of (row : raw_record) : option string :=
  let t := field row "Title" in if Py.truthy t then Some t else None.

(** Lines 172-173. *)
Definition department (row : raw_record) : option string :=
  let dept_str := field row "Departments" in
  if Py.truthy dept_str
  then Some (Py.strip (default "" (head (Py.split "," dept_str))))
  else None.

(** Lines 176-178. *)
Definition phone (row : raw_record) : value :=
  let a := field row "Work phone number" in
  let b := field row "Mobile nUmber" in
  let c := field row "Company Phone Number" in
  if Py.truthy a then VStr a
  else if Py.truthy b then VStr b
  else or_none c.

Definition process_csv_row (row : raw_record) (now : string) : record :=
  let title := title_of row in
  let linkedin_url := field row "Person Linkedin Url" in
  let email := or_none (field row "Email") in
  let website := or_none (field row "Website") in
  let company_name := or_none (field row "Company Name") in
  list_to_map
    [ ("company_name", company_name);
      ("name", or_none (full_name row));
      ("title", of_option title);
      ("linkedin_id", of_option (linkedin_id linkedin_url));
      ("location", of_option (location row));
      ("department", of_option (department row));
      ("size", of_option (normalize_size (Py.get row "# Employees" "")
                                         (Py.get row "Employee size" "")));
      ("company_id", VNone);
      ("seniority_level", of_option (infer_seniority_level title));
      ("years_experience", VNone);
      ("skills", VStr "[]");
      ("education", VStr "[]");
      ("profile_photo_url", VNone);
      ("email_address", email);
      ("phone_number", phone row);
      ("last_updated_at", VStr now);
      ("confidence_score", VInt 75);
      ("intent_signals", VStr "[]");
      ("company_funding_stage", VNone);
      ("job_change_date", VNone);
      ("technologies", VStr "[]");
      ("enrichment_status", VStr "{}");
      ("last_enriched_at", VNone);
      ("work_email_enriched", email);
      ("linkedin_url_enriched", or_none linkedin_url);
      ("social_profiles_enriched", VStr "{}");
      ("person_highlights_enriched", VNone);
      ("company_domain_enriched", website);
      ("user_id", VNone);
      ("created_at", VStr now);
      ("updated_at", VStr now);
      ("popularity_index", VFloat 5) ].

(** *** prepare_csv *)



(** *** insert_from_csv_fast *)

(** Lines 269-275. The scripts do not create the table; line 4 gives its
    key as a UNIQUE constraint on (name, company_name, title), whose NULLs
    are distinct. *)
Definition insert_sql : Sql.insert_stmt :=
  {| Sql.target_columns := INSERT_COLUMNS;
     Sql.conflict_target := ["name"; "company_name"; "title"];
     Sql.nulls_distinct := true;
     Sql.on_conflict := Sql.DoUpdateSet ["updated_at"; "last_updated_at"] |}.

(** Lines 313-319: one cell of a prepared row. [None] is the
    [ValueError] of [int]. *)
Definition convert (col val : string) : option value :=
  if String.eqb val "" || String.eqb val "None" then Some VNone
  else if String.eqb col "years_experience"
          || String.eqb col "confidence_score"
  then VInt <$> Py.int val
  else if String.eqb col "popularity_index" then Some (VFloat 5)
  else Some (VStr val).

Definition row_values (row : raw_record) : option tuple :=
  mapM (fun col => convert col (Py.get row col "")) INSERT_COLUMNS.

(** How a run ends: normally, with [total_inserted], or by the exception
    re-raised at line 367. *)
Inductive outcome : Type :=
| Completed (total_inserted : nat)
| Raised.

Global Instance outcome_eq_dec : EqDecision outcome.
Proof. solve_decision. Defined.

Section Storage.

Variable execute_values : storage.

(** The loop of lines 309-347 and the final batch of lines 350-353,
    from the state [(batch, db, total_inserted)]. An exception leaves
    the loop; the open transaction is rolled back, so the table is as
    the last commit left it. The progress report is left out. *)
Fixpoint insert_loop (batch_size : Z) (rows : list raw_record)
    (batch : list tuple) (db : table) (total_inserted : nat)
  : table * outcome :=
  match rows with
  | [] =>
      match batch with
      | [] => (db, Completed total_inserted)
      | _ =>
          match execute_values insert_sql db batch
                               (Z.of_nat (length batch)) with
          | Some db' => (db', Completed (total_inserted + length batch))
          | None => (db, Raised)
          end
      end
  | row :: rest =>
      match row_values row with
      | None => (db, Raised)
      | Some values =>
          let batch := batch ++ [values] in
          if batch_size <=? Z.of_nat (length batch) then
            match execute_values insert_sql db batch batch_size with
            | Some db' =>
                insert_loop batch_size rest [] db'
                            (total_inserted + length batch)
            | None => (db, Raised)
            end
          else insert_loop batch_size rest batch db total_inserted
      end
  end.

(** [connected] tells whether [psycopg2.connect] succeeds. *)
Definition insert_from_csv_fast (connected : bool)
    (prepared : list raw_record) (batch_size : Z) (db : table)
  : table * outcome :=
  if connected then insert_loop batch_size prepared [] db 0
  else (db, Raised).

(** Lines 466-473: the prepared files in turn, each with its own
    connection and the batch size 1000. The exception of a run is not
    caught: it ends [main]. The result is the table and the outcomes of
    the runs made, in order. *)
Fixpoint main (output_csvs : list (bool * list raw_record)) (db : table)
  : table * list outcome :=
  match output_csvs with
  | [] => (db, [])
  | (connected, prepared) :: rest =>
      match insert_from_csv_fast connected prepared 1000 db with
      | (db', Completed total_inserted) =>
          let '(db'', outcomes) := main rest db' in
          (db'', Completed total_inserted :: outcomes)
      | (db', Raised) => (db', [Raised])
      end
  end.

End Storage.

End People.

(** ** The companies script *)

Module Companies.

Definition USER_ID : string := "632d6b76-0d5a-4074-b7e8-552b2a2aeb3d".
Definition FIXED_POPULARITY_INDEX : value := VFloat 5.

(** *** read_enriched_csv *)

(** What [int(float(s))] does: a value, the [ValueError] that line 173
    catches, or another exception (such as [OverflowError]), which line
    196 catches. *)
Inductive parsed : Type :=
| Parsed (n : Z)
| ValueError
| OtherError.

Section Reader.

(** [int(float(s))]; floating-point parsing is left to the caller. *)
Variable int_of_float : string -> parsed.

(** [row.get(k, dflt).strip()] *)
Definition field (row : raw_record) (k dflt : string) : string :=
  Py.strip (Py.get row k dflt).

(** Lines 169-176; [None] when the row raises. *)
Definition employee_count (row : raw_record) : option value :=
  let employee_count_str := field row "employee_count" "" in
  if Py.truthy employee_count_str then
    match int_of_float employee_count_str with
    | Parsed n => Some (VInt n)
    | ValueError => Some VNone
    | OtherError => None
    end
  else Some VNone.

(** Lines 167-198 for one row; [None] when the row is skipped. *)
Definition read_row (row : raw_record) : option record :=
  count ← employee_count row;
  Some (list_to_map
    [ ("name", VStr (field row "name" ""));
      ("domain", VStr (field row "domain" ""));
      ("linkedin_url", VStr (field row "linkedin_url" ""));
      ("headquarters", VStr (field row "headquarters" ""));
      ("location", VStr (field row "location" ""));
      ("description", VStr (field row "description" ""));
      ("primary_industry", VStr (field row "primary_industry" ""));
      ("size", VStr (field row "size" ""));
      ("revenue_range", VStr (field row "revenue_range" ""));
      ("revenue_currency", VStr (field row "revenue_currency" "USD"));
      ("country", VStr (field row "country" ""));
      ("company_type", VStr (field row "company_type" ""));
      ("employee_count", count);
      ("revenue_usd_m", VStr (field row "revenue_usd_m" ""));
      ("write_idempotency_key",
        VStr (field row "write_idempotency_key" "")) ]).

(** The rows of the input files, in order. *)
Definition read_enriched_csv (rows : list raw_record) : list record :=
  omap read_row rows.

End Reader.

(** *** company_exists and process_companies *)

Section Precheck.

(** SQL's [LOWER], which depends on the database's locale. *)
Variable LOWER : string -> string.

(** The [WHERE] clause of lines 57-58 on one stored row. A comparison
    with NULL is not true. *)
Definition matches (company_name : string) (r : record) : bool :=
  match Sql.col r "user_id", Sql.col r "name" with
  | VStr u, VStr n =>
      String.eqb u USER_ID && String.eqb (LOWER n) (LOWER company_name)
  | _, _ => false
  end.

Definition company_exists (db : table) (company_name : string) : bool :=
  existsb (matches company_name) db.

Definition skipped_entry (name : string) (company : record) : record :=
  list_to_map
    [ ("name", VStr name);
      ("reason", VStr "Already exists in database");
      ("country", Py.get company "country" (VStr "")) ].

(** Lines 219-235: [(companies_to_insert, skipped_companies)]. [None]
    when a company has no string under ['name']. *)
Fixpoint process_companies (companies : list record) (db : table)
  : option (list record * list record) :=
  match companies with
  | [] => Some ([], [])
  | company :: rest =>
      match company !! "name" with
      | Some (VStr name) =>
          '(to_insert, skipped) ← process_companies rest db;
          if company_exists db name
          then Some (to_insert, skipped_entry name company :: skipped)
          else Some (company :: to_insert, skipped)
      | _ => None
      end
  end.

End Precheck.

(** *** insert_companies_batch *)

(** Lines 133-145. *)
Definition query : Sql.insert_stmt :=
  {| Sql.target_columns :=
       [ "id"; "user_id"; "name"; "domain"; "linkedin_url"; "headquarters";
         "location"; "description"; "primary_industry"; "size";
         "revenue_range"; "revenue_currency"; "country"; "company_type";
         "employee_count"; "created_at"; "updated_at";
         "write_idempotency_key"; "company_snapshot"; "positive_news";
         "core_values"; "gtm_strategy"; "revenue_model";
         "enrichment_status"; "key_people"; "financials"; "recent_news";
         "tech_stack"; "contact_info"; "social_media"; "social_media_data";
         "latest_news_data"; "competitive_research_data";
         "buyer_intent_data"; "events_data"; "popularity_index" ];
     Sql.conflict_target := ["user_id"; "name"];
     Sql.nulls_distinct := true;
     Sql.on_conflict := Sql.DoNothing |}.

(** Lines 84-120: the tuple of one company. *)
Definition company_values (now : Z) (company : record) : tuple :=
  [ VStr USER_ID;
    Py.get company "name" (VStr "");
    Py.get company "domain" (VStr "");
    Py.get company "linkedin_url" (VStr "");
    Py.get company "headquarters" (VStr "");
    Py.get company "location" (VStr "");
    Py.get company "description" (VStr "");
    Py.get company "primary_industry" (VStr "");
    Py.get company "size" (VStr "");
    Py.get company "revenue_range" (VStr "");
    Py.get company "revenue_currency" (VStr "USD");
    Py.get company "country" (VStr "");
    Py.get company "company_type" (VStr "");
    Py.get company "employee_count" VNone;
    VTime now;
    VTime now;
    Py.get company "write_idempotency_key" (VStr "");
    VNone; VNone; VNone; VNone; VNone;
    VStr "pending";
    VNone; VNone; VNone; VNone; VNone; VNone;
    VNone; VNone; VNone; VNone; VNone;
    FIXED_POPULARITY_INDEX ].

Section Storage.

Variable execute_values : storage.

(** [execute_values(cursor, query, values)] with the default page size
    and [commit]. [None] when it raises: the connection goes back to
    the pool and its transaction is rolled back. *)
Definition _execute_batch_insert (db : table) (values : list tuple)
  : option table :=
  execute_values query db values 100.

(** The loop of lines 79-128 over the slices, from the state
    [(db, total_inserted)]. *)
Fixpoint insert_batches (now : Z) (batches : list (list record))
    (db : table) (total_inserted : nat) : table * nat :=
  match batches with
  | [] => (db, total_inserted)
  | batch :: rest =>
      match _execute_batch_insert db (map (company_values now) batch) with
      | Some db' =>
          insert_batches now rest db' (total_inserted + length batch)
      | None => insert_batches now rest db total_inserted
      end
  end.

(** [None] is the [ValueError] of [range] with a zero step. *)
Definition insert_companies_batch (now : Z) (companies : list record)
    (batch_size : Z) (db : table) : option (table * nat) :=
  match companies with
  | [] => Some (db, 0%nat)
  | _ =>
      if batch_size =? 0 then None
      else if batch_size <? 0 then Some (db, 0%nat)
      else Some (insert_batches now
                   (Sql.chunks (Z.to_nat batch_size) companies) db 0)
  end.

End Storage.

(** *** main *)

(** The three figures of the summary, lines 263-265. *)
Record summary : Type := {
  total_companies_in_csv : nat;
  companies_inserted : nat;
  companies_skipped : nat
}.

(** Lines 246-265 on the rows of the two input files: the table after the
    run and the summary. [None] when [main] ends by an exception. *)
Definition main (int_of_float : string -> parsed)
    (LOWER : string -> string) (execute_values : storage) (now : Z)
    (rows : list raw_record) (db : table) : option (table * summary) :=
  let companies := read_enriched_csv int_of_float rows in
  '(companies_to_insert, skipped_companies) ←
    process_companies LOWER companies db;
  '(db', inserted_count) ←
    match companies_to_insert with
    | [] => Some (db, 0%nat)
    | _ => insert_companies_batch execute_values now companies_to_insert
             100 db
    end;
  Some (db', {| total_companies_in_csv := length companies;
                companies_inserted := length companies_to_insert;
                companies_skipped := length skipped_companies |}).

End Companies.

(** * Vocabulary of the properties *)

(** The predicates and tables the statements below are written with. *)

Module Spec.
Import Sql.

(** The rank of a label in the order
    1-10 < 11-50 < 51-200 < 201-500 < 501-1,000 < 1,001-5,000
    < 5,001-10,000 < 10,001+, which is [ALLOWED_SIZES] read backwards. *)
Definition bucket_rank (label : string) : option nat :=
  Py.index label (rev People.ALLOWED_SIZES).

(** The rank the numeric path gives a count, read off the thresholds. *)
Definition rank_of_count (count : Z) : nat :=
  if 10001 <=? count then 7
  else if 5001 <=? count then 6
  else if 1001 <=? count then 5
  else if 501 <=? count then 4
  else if 201 <=? count then 3
  else if 51 <=? count then 2
  else if 11 <=? count then 1
  else 0.


(** The keyword sets in the order of the [if]/[elif] chain. *)
Definition priority_table : list (list string * string) :=
  [ (["ceo"; "cfo"; "cto"; "coo"; "cmo"; "chief"; "president"; "founder"],
     "C-Suite");
    (["evp"; "svp"; "executive vice president"; "senior vice president"],
     "VP");
    (["vice president"; " vp"; "vp "], "VP");
    (["director"; "head of"], "Director");
    (["manager"], "Manager");
    (["senior"; "sr."; "lead"; "principal"], "Senior") ].

(** First match wins, with a default: the contract in the spec's words. *)
Fixpoint first_match (table : list (list string * string)) (dflt s : string)
  : string :=
  match table with
  | [] => dflt
  | (keywords, label) :: rest =>
      if Py.any_in keywords s then label else first_match rest dflt s
  end.

(** The optional attributes of a person that are read from the input,
    each with the input columns it is built from. *)
Definition optional_sources : list (string * list string) :=
  [ ("company_name", ["Company Name"]);
    ("title", ["Title"]);
    ("seniority_level", ["Title"]);
    ("linkedin_id", ["Person Linkedin Url"]);
    ("linkedin_url_enriched", ["Person Linkedin Url"]);
    ("location", ["City"; "State"; "Country"]);
    ("department", ["Departments"]);
    ("size", ["# Employees"; "Employee size"]);
    ("email_address", ["Email"]);
    ("work_email_enriched", ["Email"]);
    ("phone_number",
      ["Work phone number"; "Mobile nUmber"; "Company Phone Number"]);
    ("company_domain_enriched", ["Website"]) ].

(** The text attributes of a company that the reader defaults to [''].  *)
Definition company_text_attributes : list string :=
  [ "domain"; "linkedin_url"; "headquarters"; "location"; "description";
    "primary_industry"; "size"; "revenue_range"; "country"; "company_type";
    "revenue_usd_m"; "write_idempotency_key" ].

(** A column is absent from the row or holds the empty string. *)
Definition absent_or_empty (row : raw_record) (column : string) : Prop :=
  Py.get row column "" = "".

(** A stored row of the fixed owner whose name is [name] up to case. *)
Definition same_company (LOWER : string -> string) (name : string)
    (r : record) : Prop :=
  Sql.col r "user_id" = VStr Companies.USER_ID
  /\ exists stored, Sql.col r "name" = VStr stored
                    /\ LOWER stored = LOWER name.

(** [e'] is [e] but for the columns [cols]. *)
Definition agree_except (cols : list string) (e e' : record) : Prop :=
  forall c, c ∉ cols -> col e' c = col e c.

(** The columns a conflict action may write. *)
Definition written_columns (a : conflict_action) : list string :=
  match a with DoNothing => [] | DoUpdateSet cols => cols end.

(** Every row of [w] is still there in [w'], at its place, changed at
    most in [cols]. *)
Definition frames (cols : list string) (w w' : list (record * bool)) : Prop :=
  forall i e f, w !! i = Some (e, f) ->
                exists e' f', w' !! i = Some (e', f') /\ agree_except cols e e'.

(** Every stored row is still there after a command, at its place,
    changed at most in the columns of the conflict action. *)
Definition table_frames (cols : list string) (tbl tbl' : table) : Prop :=
  forall i (e : record), tbl !! i = Some e ->
    exists e' : record, tbl' !! i = Some e' /\ agree_except cols e e'.

(** The first stored row that collides with [r] is the one at [i]. *)
Definition first_collision (stmt : insert_stmt) (r : record)
    (tbl : table) (i : nat) : Prop :=
  (exists e : record, tbl !! i = Some e /\ collide stmt r e = true)
  /\ forall j (e : record),
       (j < i)%nat -> tbl !! j = Some e -> collide stmt r e = false.

Definition timestamps : list string := ["updated_at"; "last_updated_at"].

(** [chunk] is one slice of [chunk ++ post]: a full one, or a shorter
    one at the end of the input. *)
Definition one_chunk {A} (n : nat) (chunk post : list A) : Prop :=
  length chunk = n \/ ((0 < length chunk < n)%nat /\ post = []).

(** Write one batch and go on with [k], or stop at the exception. *)
Definition flush (execute_values : storage) (batch : list tuple)
    (db : table) (n : nat)
    (k : table -> nat -> table * People.outcome) : table * People.outcome :=
  match execute_values People.insert_sql db batch
                       (Z.of_nat (length batch)) with
  | Some db' => k db' (n + length batch)%nat
  | None => (db, People.Raised)
  end.

(** The people loop over the slices of its input: the rows of a slice
    are converted, then written in one batch. *)
Fixpoint insert_chunks (execute_values : storage)
    (slices : list (list raw_record)) (db : table) (n : nat)
  : table * People.outcome :=
  match slices with
  | [] => (db, People.Completed n)
  | slice :: rest =>
      match mapM People.row_values slice with
      | None => (db, People.Raised)
      | Some vals =>
        flush execute_values vals db n (insert_chunks execute_values rest)
      end
  end.

(** The position of the first key equal to [k]. *)
Fixpoint first_key (k : list value) (ks : list (list value)) : option nat :=
  match ks with
  | [] => None
  | k' :: rest =>
      if bool_decide (k = k') then Some 0%nat else S <$> first_key k rest
  end.

(** The keys of the rows of a command at work. *)
Definition keys (stmt : insert_stmt) (w : list (record * bool))
  : list (list value) :=
  map (fun p => key_of (conflict_target stmt) p.1) w.

(** The conflict action writes no column of the conflict target. *)
Definition keeps_keys (stmt : insert_stmt) : Prop :=
  forall c, c ∈ written_columns (on_conflict stmt) ->
            c ∉ conflict_target stmt.

(** Whether a second hit on a row is an error. *)
Definition updates (stmt : insert_stmt) : bool :=
  match on_conflict stmt with DoNothing => false | DoUpdateSet _ => true end.

(** The keys in [seen] are in the table, and under an updating action
    their rows have been touched by the command. *)
Definition touched (stmt : insert_stmt) (w : list (record * bool))
    (seen : list (list value)) : Prop :=
  forall k, k ∈ seen ->
    exists i, first_key k (keys stmt w) = Some i
              /\ (updates stmt = true -> exists e, w !! i = Some (e, true)).

(** The command has not changed the keys [ks] of the table, and a row
    that it has touched is the row of a key in [seen]. *)
Definition retouched (stmt : insert_stmt) (ks : list (list value))
    (w : list (record * bool)) (seen : list (list value)) : Prop :=
  keys stmt w = ks
  /\ forall i e, w !! i = Some (e, true) ->
       exists k, k ∈ seen /\ first_key k ks = Some i.

(** The rows of a command are in the table, each under its own key: what
    a first run establishes. *)
Definition present (stmt : insert_stmt) (values : list tuple)
    (tbl : table) : Prop :=
  let key := key_of (conflict_target stmt) in
  forallb (fun t => (length t =? length (target_columns stmt))%nat) values
  = true
  /\ Forall (fun t => is_Some (first_key (key (proposed stmt t))
                                         (map key tbl))) values
  /\ (updates stmt = true -> NoDup (map key (map (proposed stmt) values))).

(** A prepared row converts, and its key can be compared. *)
Definition comparable_row (row : raw_record) : bool :=
  match People.row_values row with
  | Some vals => comparable People.insert_sql (proposed People.insert_sql vals)
  | None => false
  end.

(** A slice of the prepared file: not empty, made of such rows. *)
Definition good_chunk (c : list raw_record) : Prop :=
  c <> [] /\ Forall (fun row => comparable_row row = true) c.

End Spec.

(** ** Vocabulary of the further properties *)

Module Terms.
Import Sql.

(** The levels [infer_seniority_level] names. *)
Definition seniority_levels : list string :=
  ["C-Suite"; "VP"; "Director"; "Manager"; "Senior"; "Individual Contributor"].

(** The string [s] does not hold the character [ch]. *)
Definition no_char (ch : ascii) (s : string) : Prop :=
  Py.all_chars (fun c => negb (Ascii.eqb ch c)) s = true.

(** The text attributes of a person that are trimmed input fields. *)
Definition trimmed_attributes : list string :=
  [ "company_name"; "name"; "title"; "department"; "email_address";
    "work_email_enriched"; "phone_number"; "linkedin_url_enriched";
    "company_domain_enriched" ].


(** A cell of an integer column that line 317 can convert: empty, the
    text "None", or an integer literal. *)
Definition integer_cell (row : raw_record) (column : string) : Prop :=
  let val := Py.get row column "" in
  val = "" \/ val = "None" \/ is_Some (Py.int val).


(** The attributes of a company record as the reader builds it. *)
Definition company_attributes : list string :=
  [ "name"; "domain"; "linkedin_url"; "headquarters"; "location";
    "description"; "primary_industry"; "size"; "revenue_range";
    "revenue_currency"; "country"; "company_type"; "employee_count";
    "revenue_usd_m"; "write_idempotency_key" ].

(** The attributes of a company that the insert sends to the database. *)
Definition written_attributes : list string :=
  [ "name"; "domain"; "linkedin_url"; "headquarters"; "location";
    "description"; "primary_industry"; "size"; "revenue_range";
    "revenue_currency"; "country"; "company_type"; "employee_count";
    "write_idempotency_key" ].


(** The name of a company record, [''] without one. *)
Definition name_of (company : record) : string :=
  match company !! "name" with Some (VStr name) => name | _ => "" end.

(** The pre-check finds no stored company of this name. *)
Definition is_new (LOWER : string -> string) (db : table)
    (company : record) : bool :=
  negb (Companies.company_exists LOWER db (name_of company)).

(** A run of the people insert has completed. *)
Definition completed (o : People.outcome) : bool :=
  match o with People.Completed _ => true | People.Raised => false end.

End Terms.

(** Concrete inputs, for the examples and counterexamples. *)

Module Sample.
Import Sql.


Definition bare_company : raw_record := {[ "name" := "Acme Corp" ]}.

Definition bare_company_record : record :=
  list_to_map
    [ ("name", VStr "Acme Corp"); ("domain", VStr "");
      ("linkedin_url", VStr ""); ("headquarters", VStr "");
      ("location", VStr ""); ("description", VStr "");
      ("primary_industry", VStr ""); ("size", VStr "");
      ("revenue_range", VStr ""); ("revenue_currency", VStr "USD");
      ("country", VStr ""); ("company_type", VStr "");
      ("employee_count", VNone); ("revenue_usd_m", VStr "");
      ("write_idempotency_key", VStr "") ].

Definition nameless_person : raw_record := {[ "Email" := "x@example.com" ]}.


Definition nameless_company_record : record :=
  list_to_map
    [ ("name", VStr ""); ("domain", VStr "acme.test");
      ("linkedin_url", VStr ""); ("headquarters", VStr "");
      ("location", VStr ""); ("description", VStr "");
      ("primary_industry", VStr ""); ("size", VStr "");
      ("revenue_range", VStr ""); ("revenue_currency", VStr "USD");
      ("country", VStr ""); ("company_type", VStr "");
      ("employee_count", VNone); ("revenue_usd_m", VStr "");
      ("write_idempotency_key", VStr "") ].

Definition stored_acme : record :=
  list_to_map
    [("user_id", VStr Companies.USER_ID); ("name", VStr "Acme Corp")].
Definition candidate_acme : record :=
  list_to_map [("name", VStr "ACME CORP"); ("country", VStr "US")].
Definition candidate_new : record :=
  list_to_map [("name", VStr "Initech"); ("country", VStr "US")].

Definition stored_jane : tuple :=
  [ VStr "Acme"; VStr "Jane Doe"; VStr "Engineer"; VNone; VNone; VNone;
    VNone; VNone; VStr "Individual Contributor"; VNone; VStr "[]";
    VStr "[]"; VNone; VStr "jane@acme.test"; VNone; VStr "2026-01-01";
    VInt 75; VStr "[]"; VNone; VNone; VStr "[]"; VStr "{}"; VNone;
    VStr "jane@acme.test"; VNone; VStr "{}"; VNone; VNone; VNone;
    VStr "2026-01-01"; VStr "2026-01-01"; VFloat 5 ].

Definition incoming_jane : tuple :=
  [ VStr "Acme"; VStr "Jane Doe"; VStr "Engineer"; VNone; VStr "Berlin";
    VNone; VNone; VNone; VStr "Individual Contributor"; VNone; VStr "[]";
    VStr "[]"; VNone; VStr "jane.doe@acme.test"; VNone; VStr "2026-02-02";
    VInt 75; VStr "[]"; VNone; VNone; VStr "[]"; VStr "{}"; VNone;
    VStr "jane.doe@acme.test"; VNone; VStr "{}"; VNone; VNone; VNone;
    VStr "2026-02-02"; VStr "2026-02-02"; VFloat 5 ].

(** A prepared row of the people CSV. *)
Definition prepared (name company title stamp : string) : raw_record :=
  list_to_map
    [ ("name", name); ("company_name", company); ("title", title);
      ("skills", "[]"); ("education", "[]"); ("confidence_score", "75");
      ("last_updated_at", stamp); ("created_at", stamp);
      ("updated_at", stamp); ("popularity_index", "5.0") ].

Definition ann := prepared "Ann Lee" "Acme" "Engineer" "2026-01-01".
Definition bob := prepared "Bob Roe" "Acme" "Analyst" "2026-01-01".
Definition cy := prepared "Cy Young" "Initech" "Manager" "2026-01-01".
Definition dee := prepared "Dee Dow" "Initech" "Clerk" "2026-01-01".

(** A company as the reader returns it. *)
Definition company (name : string) : record :=
  list_to_map [("name", VStr name); ("country", VStr "US")].

(** A storage layer with a constraint outside the uniqueness key: it
    refuses a batch in which some value is the string [bad], and stores
    the proposed rows otherwise. *)
Definition refusing (bad : string) : storage :=
  fun stmt db values _ =>
    if existsb (fun t : tuple => bool_decide (VStr bad ∈ t)) values
    then None
    else Some (db ++ map (proposed stmt) values).

(** The prepared row of a person without title: [process_csv_row] makes
    the title [None], the prepared file holds [''] for it, and line 314
    reads that back as NULL. *)
Definition jane := prepared "Jane Doe" "Acme" "" "2026-01-01".

(** The storage layer of a table whose unique index is declared NULLS NOT
    DISTINCT. *)
Definition nulls_not_distinct : storage :=
  fun stmt =>
    execute_values {| target_columns := target_columns stmt;
                      conflict_target := conflict_target stmt;
                      nulls_distinct := false;
                      on_conflict := on_conflict stmt |}.

(** One run of the people insert with the batch size of [main]. *)
Definition run (input : list raw_record) (db : table) : table * People.outcome :=
  People.insert_from_csv_fast Sql.execute_values true input 1000 db.

Definition key (r : record) : list value :=
  key_of (conflict_target People.insert_sql) r.

End Sample.

(** * Properties *)

(** A decidable closed goal, settled by evaluating its decision procedure. *)
Ltac decide_by_vm := apply (bool_decide_unpack _); vm_compute; exact I.

(** ** Size bucketing *)

Module SizeProps.
Import People Spec Sample.

Lemma bucket_rank_by_count count :
  bucket_rank (bucket_by_count count) = Some (rank_of_count count).
Proof.
  unfold bucket_by_count, rank_of_count.
  repeat case_match; reflexivity.
Qed.

Lemma rank_of_count_mono m n : m <= n -> (rank_of_count m <= rank_of_count n)%nat.
Proof.
  intros Hmn. unfold rank_of_count.
  repeat case_match; lia.
Qed.

Lemma numeric_count_truthy cs m : numeric_count cs = Some m -> Py.truthy cs = true.
Proof. destruct cs; [discriminate | reflexivity]. Qed.

(** A usable count decides the label, whatever the size text says. *)
Lemma normalize_size_numeric cs ss m :
  numeric_count cs = Some m -> normalize_size cs ss = Some (bucket_by_count m).
Proof.
  intros H. unfold normalize_size.
  rewrite (numeric_count_truthy _ _ H), H. reflexivity.
Qed.

(** The two chains of thresholds are one apart. *)
Lemma bucket_by_lower_shift n : bucket_by_lower n = bucket_by_count (n + 1).
Proof.
  unfold bucket_by_lower, bucket_by_count.
  repeat case_match; (reflexivity || lia).
Qed.



(** Decimal digits are neither white space, nor commas, nor signs. *)
Lemma isdecimal_plain c :
  Py.isdecimal c = true ->
  Py.isspace c = false /\ Py.int_space c = false /\ Py.isdigit_char c = true
  /\ Ascii.eqb "," c = false /\ c <> "+"%char /\ c <> "-"%char.
Proof.
  destruct c as [[] [] [] [] [] [] [] []]; try discriminate; intros _;
    repeat split; discriminate.
Qed.

Lemma filter_chars_all p q s :
  (forall c, q c = true -> p c = true) ->
  Py.all_chars q s = true -> Py.filter_chars p s = s.
Proof.
  intros Hpq. induction s as [|c r IH]; [done |].
  cbn [Py.all_chars Py.filter_chars]. intros [Hc Hr]%andb_true_iff.
  by rewrite (Hpq c Hc), (IH Hr).
Qed.

Lemma lstrip_with_head p c r :
  p c = false -> Py.lstrip_with p (String c r) = String c r.
Proof. intros H. cbn [Py.lstrip_with]. by rewrite H. Qed.

Lemma rstrip_with_none p q s :
  (forall c, q c = true -> p c = false) ->
  Py.all_chars q s = true -> Py.rstrip_with p s = s.
Proof.
  intros Hpq. induction s as [|c r IH]; [done |].
  cbn [Py.all_chars Py.rstrip_with]. intros [Hc Hr]%andb_true_iff.
  rewrite (IH Hr), (Hpq c Hc). by destruct r.
Qed.

Lemma int_body_decimal s : forall prev acc,
  Py.all_chars Py.isdecimal s = true ->
  (s <> "" \/ prev = true) ->
  Py.int_body prev acc s = Some (Py.digits_value acc s).
Proof.
  induction s as [|c r IH]; intros prev acc Hall Hne.
  - destruct Hne as [? | ->]; done.
  - cbn [Py.all_chars] in Hall. apply andb_true_iff in Hall as [Hc Hr].
    cbn [Py.int_body Py.digits_value]. rewrite Hc. apply IH; [done | by right].
Qed.

(** A non-empty string of decimal digits is a usable count. *)
Lemma numeric_count_decimal s :
  s <> "" -> Py.all_chars Py.isdecimal s = true ->
  numeric_count s = Some (Py.digits_value 0 s).
Proof.
  intros Hne Hall. unfold numeric_count, Py.remove_char.
  rewrite (filter_chars_all _ Py.isdecimal) by
    (done || intros c Hc;
             by rewrite (proj1 (proj2 (proj2 (proj2 (isdecimal_plain c Hc)))))).
  destruct s as [|c r]; [done |].
  pose proof Hall as Hall'. cbn [Py.all_chars] in Hall'.
  apply andb_true_iff in Hall' as [Hc Hr].
  destruct (isdecimal_plain c Hc) as (Hsp & Hisp & Hdig & Hcomma & Hplus & Hminus).
  unfold Py.strip. rewrite lstrip_with_head by done.
  rewrite (rstrip_with_none _ Py.isdecimal) by
    (done || intros c' Hc'; apply (isdecimal_plain c' Hc')).
  cbn [Py.truthy andb].
  assert (Py.all_chars Py.isdigit_char (String c r) = true) as ->.
  { clear -Hall. induction (String c r) as [|a t IH]; [done |].
    cbn [Py.all_chars] in *. apply andb_true_iff in Hall as [Ha Ht].
    by rewrite (proj1 (proj2 (proj2 (isdecimal_plain a Ha)))), IH. }
  unfold Py.int. rewrite lstrip_with_head by done.
  rewrite (rstrip_with_none _ Py.isdecimal) by
    (done || intros c' Hc'; apply (isdecimal_plain c' Hc')).
  transitivity (Py.int_body false 0 (String c r)).
  - destruct c as [[] [] [] [] [] [] [] []]; try discriminate Hc; reflexivity.
  - apply int_body_decimal; [done | by left].
Qed.
(** C8. On the numeric path of [normalize_size] the bucket rank never
    decreases when the employee count grows: for counts [m <= n] read from
    the two count strings, both calls return a label, and the rank of the
    first label is at most the rank of the second. *)
Theorem size_bucketing_monotone (cs1 cs2 ss1 ss2 : string) (m n : Z) :
  numeric_count cs1 = Some m ->
  numeric_count cs2 = Some n ->
  m <= n ->
  exists r1 r2 : nat,
    normalize_size cs1 ss1 ≫= bucket_rank = Some r1
    /\ normalize_size cs2 ss2 ≫= bucket_rank = Some r2
    /\ (r1 <= r2)%nat.
Proof.
  intros H1 H2 Hmn.
  exists (rank_of_count m), (rank_of_count n).
  rewrite (normalize_size_numeric _ ss1 _ H1), (normalize_size_numeric _ ss2 _ H2).
  simpl. rewrite !bucket_rank_by_count.
  split; [reflexivity | split; [reflexivity | by apply rank_of_count_mono]].
Qed.

Lemma size_bucketing_monotone_witness :
  exists r1 r2 : nat,
    normalize_size "1500" "1-10 employees" ≫= bucket_rank = Some r1
    /\ normalize_size "20,000" "" ≫= bucket_rank = Some r2
    /\ (r1 <= r2)%nat.
Proof.
  apply (size_bucketing_monotone "1500" "20,000" "1-10 employees" "" 1500 20000);
    [ vm_compute; reflexivity | vm_compute; reflexivity | lia ].
Defined.




End SizeProps.

(** ** Seniority inference *)

Module SeniorityProps.
Import People Spec Sample.

(** The chain is the first match in [priority_table] on the lower-cased
    title, and "Individual Contributor" when nothing matches. *)
Lemma infer_seniority_level_first_match t :
  t <> "" ->
  infer_seniority_level (Some t)
  = Some (first_match priority_table "Individual Contributor" (Py.lower t)).
Proof.
  intros Ht. destruct t as [|c r]; [done |].
  unfold infer_seniority_level.
  change (negb (Py.truthy (String c r))) with false. cbv iota.
  unfold priority_table, first_match.
  replace (Py.any_in ["manager"] (Py.lower (String c r)))
    with (Py.contains "manager" (Py.lower (String c r)))
    by (unfold Py.any_in; simpl; by rewrite orb_false_r).
  repeat case_match; reflexivity.
Qed.

(** No title, no classification. *)
Lemma infer_seniority_level_null :
  infer_seniority_level None = None /\ infer_seniority_level (Some "") = None.
Proof. split; reflexivity. Qed.

Lemma prefix_inv a s1 s :
  String.prefix (String a s1) s = true ->
  exists r, s = String a r /\ String.prefix s1 r = true.
Proof.
  destruct s as [|b r]; [discriminate |].
  cbn [String.prefix]. destruct (ascii_dec a b) as [-> |]; [| discriminate].
  eauto.
Qed.

(** The keyword "cto" occurs inside the keyword "director". *)
Lemma director_contains_cto s :
  Py.contains "director" s = true -> Py.contains "cto" s = true.
Proof.
  induction s as [|c r IH]; [discriminate |].
  intros H.
  change (Py.contains "director" (String c r))
    with (String.prefix "director" (String c r) || Py.contains "director" r) in H.
  change (Py.contains "cto" (String c r))
    with (String.prefix "cto" (String c r) || Py.contains "cto" r).
  apply orb_true_iff in H as [H | H].
  - apply orb_true_iff. right.
    apply prefix_inv in H as (r0 & E & H). injection E as -> ->.
    do 7 (apply prefix_inv in H as (? & -> & H)).
    reflexivity.
  - rewrite (IH H). apply orb_true_r.
Qed.

(** So the branch of the chain that tests "director" is never reached
    through that keyword: such a title is already C-Suite. *)
Lemma director_title_is_c_suite t :
  Py.contains "director" (Py.lower t) = true ->
  infer_seniority_level (Some t) = Some "C-Suite".
Proof.
  intros H. destruct t as [|c r]; [discriminate |].
  unfold infer_seniority_level.
  change (negb (Py.truthy (String c r))) with false. cbv iota.
  assert (Py.any_in ["ceo"; "cfo"; "cto"; "coo"; "cmo"; "chief";
                     "president"; "founder"] (Py.lower (String c r)) = true)
    as ->; [| reflexivity].
  unfold Py.any_in. apply existsb_exists. exists "cto".
  split; [| by apply director_contains_cto].
  apply list_elem_of_In. set_solver.
Qed.

(** C6. The chain is evaluated in the stated order and an empty title
    gives no classification, but a title with the Director keyword
    "director" and the Manager keyword "manager" is classified C-Suite,
    not Director: "cto", a C-Suite keyword, is a substring of "director".
    The same happens to the spec's own example title. *)
Theorem director_manager_title_is_c_suite :
  Py.any_in ["director"; "head of"] (Py.lower "Director, Account Manager") = true
  /\ Py.contains "manager" (Py.lower "Director, Account Manager") = true
  /\ infer_seniority_level (Some "Director, Account Manager") = Some "C-Suite"
  /\ infer_seniority_level (Some "Senior Director of Sales") = Some "C-Suite"
  /\ infer_seniority_level (Some "Head of Sales, Account Manager")
     = Some "Director".
Proof. vm_compute. repeat split. Qed.

End SeniorityProps.

(** ** The normaliser: identifier extraction, null defaults, rejection *)

Module NormalizerProps.
Import People Spec Sample.




Lemma linkedin_id_parts url :
  linkedin_id url
  = let parts := Py.split "/" (Py.rstrip_char "/" url) in
    if Py.mem "in" parts
    then Py.index "in" parts ≫= fun idx => parts !! (idx + 1)%nat
    else None.
Proof. destruct url; reflexivity. Qed.




(** *** Null defaults *)

Lemma person_null_defaults row now attr columns :
  (attr, columns) ∈ optional_sources ->
  Forall (absent_or_empty row) columns ->
  process_csv_row row now !! attr = Some VNone.
Proof.
  unfold optional_sources, absent_or_empty. intros Hin Hcols.
  repeat (apply elem_of_cons in Hin as [Hin | Hin];
          [ injection Hin as -> ->;
            rewrite ?Forall_cons in Hcols; destruct_and!;
            unfold process_csv_row, title_of, location, department, phone,
              field;
            repeat match goal with H : Py.get _ _ _ = _ |- _ =>
                     rewrite H; clear H end;
            reflexivity
          | ]).
  by apply elem_of_nil in Hin.
Qed.

Lemma read_row_inv iof row company :
  Companies.read_row iof row = Some company ->
  exists count,
    Companies.employee_count iof row = Some count
    /\ company !! "name" = Some (VStr (Companies.field row "name" ""))
    /\ company !! "employee_count" = Some count
    /\ company !! "revenue_currency"
       = Some (VStr (Companies.field row "revenue_currency" "USD"))
    /\ forall attr, attr ∈ company_text_attributes ->
         company !! attr = Some (VStr (Companies.field row attr "")).
Proof.
  unfold Companies.read_row.
  destruct (Companies.employee_count iof row) as [count|]; [| discriminate].
  cbn [mbind option_bind]. intros [= <-]. exists count.
  repeat split.
  intros attr Hin. unfold company_text_attributes in Hin.
  repeat (apply elem_of_cons in Hin as [-> | Hin]; [reflexivity |]).
  by apply elem_of_nil in Hin.
Qed.

Lemma company_defaults iof row company :
  Companies.read_row iof row = Some company ->
  (forall attr, attr ∈ company_text_attributes ->
     absent_or_empty row attr -> company !! attr = Some (VStr ""))
  /\ (absent_or_empty row "employee_count" ->
      company !! "employee_count" = Some VNone)
  /\ (row !! "revenue_currency" = None ->
      company !! "revenue_currency" = Some (VStr "USD")).
Proof.
  intros (count & Hcount & _ & Hc & Hcur & Htext)%read_row_inv.
  unfold absent_or_empty. split; [| split].
  - intros attr Hin Hblank. rewrite (Htext attr Hin).
    unfold Companies.field. by rewrite Hblank.
  - intros Hblank. rewrite Hc, <- Hcount.
    unfold Companies.employee_count, Companies.field. by rewrite Hblank.
  - intros Hnone. rewrite Hcur.
    unfold Companies.field, Py.get. by rewrite Hnone.
Qed.

(** C4, as stated, fails for the company reader: a row with a name and
    nothing else gives a company whose domain is the empty string, not
    null. *)
Lemma company_reader_defaults_to_empty_string :
  Companies.read_enriched_csv (fun _ => Companies.ValueError) [bare_company]
  = [bare_company_record]
  /\ bare_company_record !! "domain" = Some (VStr "")
  /\ bare_company_record !! "domain" <> Some VNone.
Proof.
  split; [decide_by_vm | split; [reflexivity | discriminate]].
Qed.

(** C4, amended. In the person normaliser every optional attribute read
    from the input is null when each column it is built from is absent or
    empty. In the company reader only [employee_count] is null then: a
    text attribute is the empty string, and [revenue_currency] is "USD"
    when its column is absent. *)
Theorem null_defaults :
  (forall (row : raw_record) (now attr : string) (columns : list string),
     (attr, columns) ∈ optional_sources ->
     Forall (absent_or_empty row) columns ->
     process_csv_row row now !! attr = Some VNone)
  /\ (forall iof (row : raw_record) (company : record),
        Companies.read_row iof row = Some company ->
        (forall attr, attr ∈ company_text_attributes ->
           absent_or_empty row attr -> company !! attr = Some (VStr ""))
        /\ (absent_or_empty row "employee_count" ->
            company !! "employee_count" = Some VNone)
        /\ (row !! "revenue_currency" = None ->
            company !! "revenue_currency" = Some (VStr "USD"))).
Proof.
  split.
  - intros. by eapply person_null_defaults.
  - intros. by eapply company_defaults.
Qed.

Lemma null_defaults_witness :
  process_csv_row nameless_person "2026-01-01T00:00:00" !! "phone_number"
  = Some VNone
  /\ bare_company_record !! "domain" = Some (VStr "").
Proof.
  split.
  - apply (proj1 null_defaults nameless_person "2026-01-01T00:00:00"
             "phone_number"
             ["Work phone number"; "Mobile nUmber"; "Company Phone Number"]).
    + decide_by_vm.
    + repeat constructor.
  - apply (proj1 (proj2 null_defaults (fun _ => Companies.ValueError)
                    bare_company bare_company_record eq_refl) "domain").
    + decide_by_vm.
    + reflexivity.
Defined.

(** *** Rejection of records without identity *)









End NormalizerProps.

(** ** The pre-check *)

Module PrecheckProps.
Import Companies Spec Sample.

Section WithLower.

Variable LOWER : string -> string.

Lemma matches_same_company name r :
  matches LOWER name r = true <-> same_company LOWER name r.
Proof.
  unfold matches, same_company. split.
  - destruct (Sql.col r "user_id") as [|u| | |]; try discriminate.
    destruct (Sql.col r "name") as [|n| | |]; try discriminate.
    intros [Hu Hn]%andb_true_iff.
    apply String.eqb_eq in Hu as ->. apply String.eqb_eq in Hn. eauto.
  - intros (-> & n & -> & Hn).
    rewrite Hn, !String.eqb_refl. reflexivity.
Qed.

Lemma company_exists_iff db name :
  company_exists LOWER db name = true
  <-> exists r, r ∈ db /\ same_company LOWER name r.
Proof.
  unfold company_exists. rewrite existsb_exists.
  split; intros (r & Hr & Hm); exists r.
  - split; [by apply list_elem_of_In | by apply matches_same_company].
  - split; [by apply list_elem_of_In | by apply matches_same_company].
Qed.

Lemma company_exists_up_to_case db a b :
  LOWER a = LOWER b ->
  company_exists LOWER db a = company_exists LOWER db b.
Proof.
  intros Hab. unfold company_exists. f_equal.
  unfold matches. by rewrite Hab.
Qed.

(** What [process_companies] returns, company by company. *)
Lemma process_companies_partition companies db to_insert skipped :
  process_companies LOWER companies db = Some (to_insert, skipped) ->
  Forall (fun company : record =>
            exists name, company !! "name" = Some (VStr name)
                         /\ company_exists LOWER db name = false) to_insert
  /\ forall (company : record) name,
       company ∈ companies -> company !! "name" = Some (VStr name) ->
       if company_exists LOWER db name
       then skipped_entry name company ∈ skipped
       else company ∈ to_insert.
Proof.
  revert to_insert skipped.
  induction companies as [|c rest IH]; intros to_insert skipped H.
  - injection H as <- <-. split; [constructor |].
    intros ? ? Hin. by apply elem_of_nil in Hin.
  - cbn [process_companies] in H.
    destruct (c !! "name") as [[|n| | |]|] eqn:Hc; try discriminate.
    destruct (process_companies LOWER rest db) as [[ins sk]|];
      [| discriminate].
    destruct (IH _ _ eq_refl) as [IHins IHall].
    cbn [mbind option_bind] in H.
    destruct (company_exists LOWER db n) eqn:He; injection H as <- <-.
    + split; [exact IHins |].
      intros company name [-> | Hin]%elem_of_cons Hname.
      * rewrite Hc in Hname. injection Hname as <-.
        rewrite He. apply list_elem_of_here.
      * specialize (IHall company name Hin Hname).
        destruct (company_exists LOWER db name);
          [by apply list_elem_of_further | done].
    + split; [constructor; eauto |].
      intros company name [-> | Hin]%elem_of_cons Hname.
      * rewrite Hc in Hname. injection Hname as <-.
        rewrite He. apply list_elem_of_here.
      * specialize (IHall company name Hin Hname).
        destruct (company_exists LOWER db name);
          [done | by apply list_elem_of_further].
Qed.

End WithLower.

(** The conflict key of the bulk insert compares the stored values
    themselves. *)
Lemma collide_exact r e :
  Sql.collide query r e = true ->
  Sql.col r "user_id" = Sql.col e "user_id"
  /\ Sql.col r "name" = Sql.col e "name".
Proof.
  unfold Sql.collide. intros [_ Hk]%andb_true_iff.
  apply bool_decide_eq_true in Hk. by injection Hk.
Qed.

(** C10. For any lower-casing function of the database: the pre-check
    finds a candidate name already there exactly when some stored row of
    the fixed owner has that name up to case; two candidate names equal
    up to case get the same answer; [process_companies] sends a company
    to the skip list when the pre-check finds it and to the insert list
    (and only then) when it does not; and the conflict key of the bulk
    insert takes two rows to collide only when their names are equal as
    they are. *)
Theorem precheck_case_insensitive (LOWER : string -> string) :
  (forall (db : table) name,
     company_exists LOWER db name = true
     <-> exists r, r ∈ db /\ same_company LOWER name r)
  /\ (forall (db : table) a b,
        LOWER a = LOWER b ->
        company_exists LOWER db a = company_exists LOWER db b)
  /\ (forall companies (db : table) to_insert skipped,
        process_companies LOWER companies db = Some (to_insert, skipped) ->
        forall (company : record) name,
          company ∈ companies -> company !! "name" = Some (VStr name) ->
          (company_exists LOWER db name = true ->
           skipped_entry name company ∈ skipped /\ company ∉ to_insert)
          /\ (company_exists LOWER db name = false -> company ∈ to_insert))
  /\ (forall r e : record,
        Sql.collide query r e = true ->
        Sql.col r "name" = Sql.col e "name").
Proof.
  split; [| split; [| split]].
  - apply company_exists_iff.
  - apply company_exists_up_to_case.
  - intros companies db to_insert skipped H company name Hin Hname.
    destruct (process_companies_partition _ _ _ _ _ H) as [Hins Hall].
    specialize (Hall company name Hin Hname).
    split; intros He; rewrite He in Hall; [| done].
    split; [done |]. intros Hc.
    rewrite Forall_forall in Hins.
    destruct (Hins company Hc) as (n & Hn & Hfalse).
    rewrite Hname in Hn. injection Hn as <-. congruence.
  - intros r e H. by apply collide_exact in H as [_ ?].
Qed.

Lemma precheck_case_insensitive_witness :
  company_exists Py.lower [stored_acme] "ACME CORP"
  = company_exists Py.lower [stored_acme] "acme corp"
  /\ (skipped_entry "ACME CORP" candidate_acme
      ∈ [skipped_entry "ACME CORP" candidate_acme]
      /\ candidate_acme ∉ [candidate_new])
  /\ candidate_new ∈ [candidate_new].
Proof.
  destruct (precheck_case_insensitive Py.lower) as (_ & Hcase & Hroute & _).
  split; [apply Hcase; reflexivity |].
  assert (process_companies Py.lower [candidate_acme; candidate_new]
                            [stored_acme]
          = Some ([candidate_new],
                  [skipped_entry "ACME CORP" candidate_acme])) as Hrun
    by decide_by_vm.
  split.
  - apply (Hroute _ _ _ _ Hrun candidate_acme "ACME CORP");
      [decide_by_vm | reflexivity | reflexivity].
  - apply (Hroute _ _ _ _ Hrun candidate_new "Initech");
      [decide_by_vm | reflexivity | reflexivity].
Defined.

End PrecheckProps.

(** ** The conflict policy of the people table *)

Module ConflictProps.
Import Sql Spec Sample.

Lemma agree_except_refl cols e : agree_except cols e e.
Proof. by intros c _. Qed.

Lemma agree_except_trans cols e1 e2 e3 :
  agree_except cols e1 e2 -> agree_except cols e2 e3 -> agree_except cols e1 e3.
Proof. intros H12 H23 c Hc. by rewrite (H23 c Hc), (H12 c Hc). Qed.

Lemma frames_refl cols w : frames cols w w.
Proof. intros i e f H. exists e, f. split; [done | apply agree_except_refl]. Qed.

Lemma frames_trans cols w1 w2 w3 :
  frames cols w1 w2 -> frames cols w2 w3 -> frames cols w1 w3.
Proof.
  intros H12 H23 i e f H.
  destruct (H12 _ _ _ H) as (e2 & f2 & H2 & Ha).
  destruct (H23 _ _ _ H2) as (e3 & f3 & H3 & Hb).
  exists e3, f3. split; [done | by eapply agree_except_trans].
Qed.

Lemma col_insert_ne (r : record) c c' v :
  c' <> c -> col (<[c' := v]> r) c = col r c.
Proof. intros H. unfold col, Py.get. by rewrite lookup_insert_ne. Qed.

Lemma col_insert_eq (r : record) c v : col (<[c := v]> r) c = v.
Proof. unfold col, Py.get. by rewrite lookup_insert_eq. Qed.

Lemma set_excluded_other cols r e c :
  c ∉ cols -> col (set_excluded cols r e) c = col e c.
Proof.
  induction cols as [|c' cols IH]; intros Hc; [done |].
  apply not_elem_of_cons in Hc as [Hne Hc].
  cbn [set_excluded foldr]. rewrite col_insert_ne by done. by apply IH.
Qed.

Lemma set_excluded_written cols r e c :
  c ∈ cols -> col (set_excluded cols r e) c = col r c.
Proof.
  induction cols as [|c' cols IH]; intros Hc; [by apply elem_of_nil in Hc |].
  cbn [set_excluded foldr].
  destruct (decide (c' = c)) as [-> | Hne]; [apply col_insert_eq |].
  rewrite col_insert_ne by done. apply IH.
  apply elem_of_cons in Hc as [-> | Hc]; done.
Qed.

Lemma insert_row_frames stmt w r w' :
  insert_row stmt w r = Some w' ->
  frames (written_columns (on_conflict stmt)) w w'.
Proof.
  unfold insert_row.
  destruct (find_conflict stmt r w) as [i|].
  - destruct (on_conflict stmt) as [|cols].
    + intros [= <-]. apply frames_refl.
    + destruct (w !! i) as [[e []]|] eqn:Hi; try discriminate.
      intros [= <-] j e0 f0 Hj. cbn [written_columns].
      destruct (decide (i = j)) as [<- | Hne].
      * rewrite Hi in Hj. injection Hj as <- <-.
        exists (set_excluded cols r e), true. split.
        -- apply list_lookup_insert_eq. by eapply lookup_lt_Some.
        -- intros c Hc. by apply set_excluded_other.
      * exists e0, f0. split; [| apply agree_except_refl].
        by rewrite list_lookup_insert_ne.
  - intros [= <-] j e0 f0 Hj. exists e0, f0.
    split; [| apply agree_except_refl].
    rewrite lookup_app_l; [done | by eapply lookup_lt_Some].
Qed.

Lemma insert_rows_frames stmt rows : forall w w',
  insert_rows stmt w rows = Some w' ->
  frames (written_columns (on_conflict stmt)) w w'.
Proof.
  induction rows as [|r rows IH]; intros w w'; cbn [insert_rows].
  - intros [= <-]. apply frames_refl.
  - destruct (insert_row stmt w r) as [w1|] eqn:H1; [| discriminate].
    intros H2. eapply frames_trans; [by eapply insert_row_frames | by apply IH].
Qed.

Lemma exec_frames stmt tbl values tbl' :
  exec stmt tbl values = Some tbl' ->
  table_frames (written_columns (on_conflict stmt)) tbl tbl'.
Proof.
  unfold exec. destruct (forallb _ values); [| discriminate].
  destruct (insert_rows _ _ _) as [w'|] eqn:Hw; [| discriminate].
  intros [= <-] i e Hi.
  destruct (insert_rows_frames _ _ _ _ Hw i e false) as (e' & f' & H' & Ha).
  { by rewrite list_lookup_fmap, Hi. }
  exists e'. split; [| done]. by rewrite list_lookup_fmap, H'.
Qed.

Lemma table_frames_trans cols t1 t2 t3 :
  table_frames cols t1 t2 -> table_frames cols t2 t3 -> table_frames cols t1 t3.
Proof.
  intros H12 H23 i e H.
  destruct (H12 _ _ H) as (e2 & H2 & Ha).
  destruct (H23 _ _ H2) as (e3 & H3 & Hb).
  exists e3. split; [done | by eapply agree_except_trans].
Qed.

Lemma exec_pages_frames stmt pages : forall tbl tbl',
  exec_pages stmt tbl pages = Some tbl' ->
  table_frames (written_columns (on_conflict stmt)) tbl tbl'.
Proof.
  induction pages as [|p pages IH]; intros tbl tbl'; cbn [exec_pages].
  - intros [= <-] i e Hi. exists e. split; [done | apply agree_except_refl].
  - destruct (exec stmt tbl p) as [t1|] eqn:H1; [| discriminate].
    intros H2. eapply table_frames_trans; [by eapply exec_frames | by apply IH].
Qed.

Lemma execute_values_frames stmt tbl argslist page_size tbl' :
  execute_values stmt tbl argslist page_size = Some tbl' ->
  table_frames (written_columns (on_conflict stmt)) tbl tbl'.
Proof.
  unfold execute_values.
  destruct (page_size <=? 0); [discriminate |]. apply exec_pages_frames.
Qed.

Lemma find_conflict_first stmt r : forall (tbl : table) i,
  first_collision stmt r tbl i ->
  find_conflict stmt r (map (fun e => (e, false)) tbl) = Some i.
Proof.
  induction tbl as [|e0 tbl IH]; intros i [(e & Hi & Hc) Hbefore].
  - by rewrite lookup_nil in Hi.
  - cbn [map find_conflict]. destruct i as [|i].
    + injection Hi as ->. by rewrite Hc.
    + rewrite (Hbefore 0%nat e0) by (done || lia).
      rewrite (IH i); [done |]. split; [by exists e |].
      intros j e' Hj He'. apply (Hbefore (S j) e'); [lia | done].
Qed.

(** The command that [execute_values] sends for one row, on a table in
    which that row collides first with the row at [i]. *)
Lemma execute_values_collision (db : table) (t : tuple) i (e : record) :
  length t = length People.INSERT_COLUMNS ->
  db !! i = Some e ->
  first_collision People.insert_sql (proposed People.insert_sql t) db i ->
  execute_values People.insert_sql db [t] 1
  = Some (<[i := set_excluded timestamps (proposed People.insert_sql t) e]> db).
Proof.
  intros Hlen Hi Hfirst.
  assert (exec People.insert_sql db [t]
          = Some (<[i := set_excluded timestamps
                            (proposed People.insert_sql t) e]> db)) as Hexec.
  { unfold exec. cbn [forallb].
    change (target_columns People.insert_sql) with People.INSERT_COLUMNS.
    rewrite Hlen, Nat.eqb_refl. cbn [andb map insert_rows].
    unfold insert_row. rewrite (find_conflict_first _ _ _ _ Hfirst).
    cbn [on_conflict People.insert_sql].
    change (map (fun e0 : record => (e0, false)) db)
      with ((fun e0 : record => (e0, false)) <$> db).
    rewrite list_lookup_fmap, Hi. cbn [fmap option_fmap option_map].
    f_equal. change (map fst) with (fmap (M := list) (@fst record bool)).
    rewrite list_fmap_insert, <- list_fmap_compose. cbn [fst].
    f_equal. apply list_fmap_id. }
  unfold execute_values. change (1 <=? 0) with false. cbv iota.
  change (chunks (Z.to_nat 1) [t]) with [[t]].
  cbn [exec_pages]. by rewrite Hexec.
Qed.

Lemma not_timestamp c :
  c <> "updated_at" -> c <> "last_updated_at" -> c ∉ timestamps.
Proof.
  intros H1 H2 [-> | [-> | Hin]%elem_of_cons]%elem_of_cons; [done | done |].
  by apply elem_of_nil in Hin.
Qed.

(** C7. Whatever a batch of the people upsert does to the table, every
    row that was stored before is still stored, at its place, with every
    column other than [updated_at] and [last_updated_at] as it was. And a
    record whose key collides with a stored row adds no row: the stored
    row takes the record's two timestamps and keeps the rest. *)
Theorem person_conflict_frame :
  (forall (db db' : table) (batch : list tuple) (page_size : Z),
     execute_values People.insert_sql db batch page_size = Some db' ->
     forall i (e : record), db !! i = Some e ->
       exists e' : record,
         db' !! i = Some e'
         /\ forall c, c <> "updated_at" -> c <> "last_updated_at" ->
                      col e' c = col e c)
  /\ (forall (db : table) (t : tuple) i (e : record),
        length t = length People.INSERT_COLUMNS ->
        db !! i = Some e ->
        first_collision People.insert_sql (proposed People.insert_sql t)
                        db i ->
        exists e' : record,
          execute_values People.insert_sql db [t] 1 = Some (<[i := e']> db)
          /\ col e' "updated_at" = col (proposed People.insert_sql t) "updated_at"
          /\ col e' "last_updated_at"
             = col (proposed People.insert_sql t) "last_updated_at"
          /\ forall c, c <> "updated_at" -> c <> "last_updated_at" ->
                       col e' c = col e c).
Proof.
  split.
  - intros db db' batch page_size Hrun i e Hi.
    destruct (execute_values_frames _ _ _ _ _ Hrun i e Hi) as (e' & H' & Ha).
    exists e'. split; [done |]. intros c H1 H2. apply Ha.
    by apply not_timestamp.
  - intros db t i e Hlen Hi Hfirst.
    exists (set_excluded timestamps (proposed People.insert_sql t) e).
    split; [by apply execute_values_collision |].
    split; [apply set_excluded_written; apply list_elem_of_here |].
    split; [apply set_excluded_written;
            apply list_elem_of_further, list_elem_of_here |].
    intros c H1 H2. by apply set_excluded_other, not_timestamp.
Qed.

Lemma person_conflict_frame_witness :
  exists e' : record,
    execute_values People.insert_sql
                   [proposed People.insert_sql stored_jane] [incoming_jane] 1
    = Some [e']
    /\ col e' "updated_at" = VStr "2026-02-02"
    /\ col e' "last_updated_at" = VStr "2026-02-02"
    /\ col e' "email_address" = VStr "jane@acme.test"
    /\ col e' "location" = VNone
    /\ col e' "created_at" = VStr "2026-01-01".
Proof.
  destruct (proj2 person_conflict_frame
              [proposed People.insert_sql stored_jane] incoming_jane 0%nat
              (proposed People.insert_sql stored_jane))
    as (e' & Hrun & Hu & Hl & Hother).
  - reflexivity.
  - reflexivity.
  - split; [| intros j e Hj; lia].
    eexists. split; [reflexivity | vm_compute; reflexivity].
  - destruct (proj1 person_conflict_frame _ _ _ _ Hrun 0%nat _ eq_refl)
      as (e2 & H2 & Hframe).
    exists e'. split; [exact Hrun |].
    split; [rewrite Hu; reflexivity |].
    split; [rewrite Hl; reflexivity |].
    cbn [insert list_insert lookup list_lookup] in H2. injection H2 as <-.
    split; [by rewrite Hframe |]. split; by rewrite Hframe.
Defined.

End ConflictProps.

(** ** Batching *)

Module ChunkProps.
Import Sql Spec.

Section Chunks.
Context {A : Type}.
Implicit Types l pre post : list A.

Lemma chunks_go_nil fuel n : chunks_go (A := A) fuel n [] = [].
Proof. by destruct fuel. Qed.

(** Any fuel from the length of the list on gives the same slices. *)
Lemma chunks_go_enough n : forall fuel l,
  (0 < n)%nat -> (length l <= fuel)%nat ->
  chunks_go fuel n l = chunks n l.
Proof.
  intros fuel l Hn. unfold chunks.
  remember (length l) as m eqn:Hm.
  revert fuel l Hm.
  induction m as [m IH] using lt_wf_ind. intros fuel l Hm Hfuel.
  destruct l as [|x l]; [by rewrite !chunks_go_nil |].
  destruct fuel as [|fuel]; [simpl in *; lia |].
  destruct m as [|m]; [discriminate |].
  cbn [chunks_go]. f_equal.
  assert (length (drop n (x :: l)) <= m)%nat as Hd.
  { rewrite length_drop. simpl in *. lia. }
  rewrite (IH (length (drop n (x :: l))))
    by (done || simpl in *; lia).
  symmetry. apply (IH (length (drop n (x :: l)))); (done || simpl in *; lia).
Qed.

Lemma chunks_nil n : chunks (A := A) n [] = [].
Proof. reflexivity. Qed.

Lemma chunks_cons n l :
  (0 < n)%nat -> l <> [] -> chunks n l = take n l :: chunks n (drop n l).
Proof.
  intros Hn Hl. destruct l as [|x l]; [done |].
  unfold chunks at 1. cbn [length chunks_go]. f_equal.
  apply chunks_go_enough; [done |]. rewrite length_drop. simpl. lia.
Qed.

Lemma chunks_one_chunk n chunk post :
  (0 < n)%nat -> one_chunk n chunk post ->
  chunks n (chunk ++ post) = chunk :: chunks n post.
Proof.
  intros Hn [Hlen | [Hlen ->]].
  - rewrite chunks_cons; [| done | destruct chunk; [simpl in *; lia | done]].
    by rewrite take_app_length', drop_app_length'.
  - rewrite app_nil_r, chunks_cons; [| done | destruct chunk; [simpl in *; lia | done]].
    rewrite take_ge, drop_ge by lia. reflexivity.
Qed.

Lemma chunks_app_aligned n k : forall pre post,
  (0 < n)%nat -> length pre = (k * n)%nat ->
  chunks n (pre ++ post) = chunks n pre ++ chunks n post.
Proof.
  induction k as [|k IH]; intros pre post Hn Hlen.
  - destruct pre; [done | simpl in *; lia].
  - rewrite <- (take_drop n pre), <- app_assoc.
    assert (length (take n pre) = n) as Ht by (rewrite length_take; lia).
    rewrite !(chunks_one_chunk n (take n pre)) by (done || by left).
    rewrite (IH (drop n pre) post) by (done || rewrite length_drop; lia).
    reflexivity.
Qed.

Lemma concat_chunks n l : (0 < n)%nat -> concat (chunks n l) = l.
Proof.
  intros Hn. remember (length l) as m eqn:Hm. revert l Hm.
  induction m as [m IH] using lt_wf_ind. intros l Hm.
  destruct l as [|x l]; [done |].
  rewrite chunks_cons by done. cbn [concat].
  rewrite (IH (length (drop n (x :: l)))); [apply take_drop | | done].
  rewrite length_drop. simpl in *. lia.
Qed.

End Chunks.

End ChunkProps.

(** ** Failure of one chunk *)

Module IsolationProps.
Import Sql Spec Sample ChunkProps.

Section Generic.

Variable execute_values : storage.

Local Abbreviation insert_batches := (Companies.insert_batches execute_values).
Local Abbreviation insert_companies_batch :=
  (Companies.insert_companies_batch execute_values).
Local Abbreviation insert_loop := (People.insert_loop execute_values).
Local Abbreviation insert_from_csv_fast :=
  (People.insert_from_csv_fast execute_values).

(** *** The company loop *)

Lemma insert_batches_app now bs1 : forall bs2 db n,
  insert_batches now (bs1 ++ bs2) db n
  = insert_batches now bs2 (insert_batches now bs1 db n).1
                           (insert_batches now bs1 db n).2.
Proof.
  induction bs1 as [|b bs1 IH]; intros bs2 db n; [done |].
  cbn [app Companies.insert_batches].
  destruct (Companies._execute_batch_insert _ _ _); apply IH.
Qed.

Lemma insert_companies_batch_chunks now companies batch_size db :
  0 < batch_size ->
  insert_companies_batch now companies batch_size db
  = Some (insert_batches now (chunks (Z.to_nat batch_size) companies) db 0).
Proof.
  intros Hb. unfold Companies.insert_companies_batch.
  destruct companies; [done |].
  destruct (Z.eqb_spec batch_size 0); [lia |].
  destruct (Z.ltb_spec batch_size 0); [lia | done].
Qed.

(** [total_inserted] only counts rows of the input. *)
Lemma insert_batches_count now bs : forall db n,
  ((insert_batches now bs db n).2 <= n + length (concat bs))%nat.
Proof.
  induction bs as [|b bs IH]; intros db n; cbn [Companies.insert_batches].
  - simpl. lia.
  - cbn [concat]. rewrite length_app.
    destruct (Companies._execute_batch_insert _ _ _) as [db'|].
    + specialize (IH db' (n + length b)%nat). lia.
    + specialize (IH db n). lia.
Qed.

Lemma company_chunk_isolated now pre bad post batch_size k db db1 n1 :
  0 < batch_size ->
  length pre = (k * Z.to_nat batch_size)%nat ->
  one_chunk (Z.to_nat batch_size) bad post ->
  insert_companies_batch now pre batch_size db = Some (db1, n1) ->
  Companies._execute_batch_insert execute_values db1
    (map (Companies.company_values now) bad) = None ->
  insert_companies_batch now (pre ++ bad ++ post) batch_size db
  = insert_companies_batch now (pre ++ post) batch_size db
  /\ forall db2 n2,
       insert_companies_batch now (pre ++ bad ++ post) batch_size db
       = Some (db2, n2) ->
       (n2 + length bad <= length (pre ++ bad ++ post))%nat.
Proof.
  intros Hb Hpre Hone Hrun Hfail.
  assert (0 < Z.to_nat batch_size)%nat as Hn by lia.
  rewrite !insert_companies_batch_chunks in * by done.
  injection Hrun as Hrun.
  rewrite (chunks_app_aligned _ k pre (bad ++ post)) by done.
  rewrite (chunks_app_aligned _ k pre post) by done.
  rewrite (chunks_one_chunk _ bad post) by done.
  rewrite !insert_batches_app, Hrun. cbn [fst snd Companies.insert_batches].
  rewrite Hfail. split; [done |].
  intros db2 n2 [= H2].
  pose proof (insert_batches_count now (chunks (Z.to_nat batch_size) post)
                db1 n1) as Hpost.
  rewrite H2 in Hpost. cbn [snd] in Hpost.
  rewrite concat_chunks in Hpost by done.
  pose proof (insert_batches_count now (chunks (Z.to_nat batch_size) pre)
                db 0%nat) as Hcount.
  rewrite Hrun, concat_chunks in Hcount by done. cbn [snd] in Hcount.
  rewrite !length_app. lia.
Qed.

(** *** The people loop *)

Lemma insert_loop_fill batch_size :
  0 < batch_size ->
  forall rows batch db n,
    (length batch < Z.to_nat batch_size)%nat ->
    insert_loop batch_size rows batch db n
    = match rows with
      | [] =>
          match batch with
          | [] => (db, People.Completed n)
          | _ => flush execute_values batch db n (fun db' n' => (db', People.Completed n'))
          end
      | _ =>
          let room := (Z.to_nat batch_size - length batch)%nat in
          match mapM People.row_values (take room rows) with
          | None => (db, People.Raised)
          | Some vals =>
              flush execute_values (batch ++ vals) db n
                (insert_chunks execute_values
                   (chunks (Z.to_nat batch_size) (drop room rows)))
          end
      end.
Proof.
  intros Hb. set (b := Z.to_nat batch_size).
  assert (0 < b)%nat as Hn by lia.
  induction rows as [|row rest IH]; intros batch db n Hlt.
  - cbn [People.insert_loop]. by destruct batch.
  - cbn [People.insert_loop]. cbv zeta.
    destruct (b - length batch)%nat as [|room] eqn:Hroom; [lia |].
    cbn [take mapM]. 
    destruct (People.row_values row) as [v|]; [| reflexivity].
    cbn [mbind option_bind].
    destruct (Z.leb_spec batch_size (Z.of_nat (length (batch ++ [v]))))
      as [Hfull | Hmore]; rewrite length_app in *; cbn [length] in *.
    + assert (room = 0)%nat as -> by lia.
      rewrite take_0. change (drop 1 (row :: rest)) with rest.
      cbn [mapM mbind option_bind mret option_ret].
      unfold flush.
      replace (Z.of_nat (length (batch ++ [v]))) with batch_size
        by (rewrite length_app; cbn [length]; lia).
      destruct (execute_values _ _ _ _) as [db'|]; [| reflexivity].
      rewrite IH by (cbn [length]; lia).
      rewrite length_app. cbn [length].
      destruct rest as [|r rest]; [reflexivity |].
      rewrite (chunks_cons b (r :: rest)) by done.
      cbn [insert_chunks length].
      rewrite Nat.sub_0_r. reflexivity.
    + rewrite IH by (rewrite length_app; cbn [length]; lia).
      rewrite length_app. cbn [length].
      replace (b - (length batch + 1))%nat with room by lia.
      destruct rest as [|r rest].
      * cbn [skipn]. rewrite take_nil, drop_nil, chunks_nil.
        cbn [mapM mbind option_bind mret option_ret insert_chunks].
        destruct (batch ++ [v]) eqn:E; [by destruct batch | reflexivity].
      * cbv zeta.
        destruct (mapM People.row_values (take room (r :: rest)))
          as [vs|]; [| reflexivity].
        cbn [mbind option_bind mret option_ret skipn].
        rewrite <- app_assoc. reflexivity.
Qed.

Lemma insert_loop_chunks batch_size rows db n :
  0 < batch_size ->
  insert_loop batch_size rows [] db n
  = insert_chunks execute_values (chunks (Z.to_nat batch_size) rows) db n.
Proof.
  intros Hb. rewrite insert_loop_fill by (done || cbn [length]; lia).
  destruct rows as [|r rows]; [done |].
  rewrite (chunks_cons _ (r :: rows)) by (done || lia).
  cbn [insert_chunks length].
  rewrite Nat.sub_0_r. reflexivity.
Qed.

Lemma insert_chunks_app s1 : forall s2 db n,
  insert_chunks execute_values (s1 ++ s2) db n
  = match insert_chunks execute_values s1 db n with
    | (db1, People.Completed n1) => insert_chunks execute_values s2 db1 n1
    | (db1, People.Raised) => (db1, People.Raised)
    end.
Proof.
  induction s1 as [|s s1 IH]; intros s2 db n; [done |].
  cbn [app insert_chunks].
  destruct (mapM People.row_values s) as [vals|]; [| done].
  unfold flush. destruct (execute_values _ _ _ _); [apply IH | done].
Qed.

Lemma person_chunk_failure_aborts pre bad post batch_size k db db1 n1 vals :
  0 < batch_size ->
  length pre = (k * Z.to_nat batch_size)%nat ->
  one_chunk (Z.to_nat batch_size) bad post ->
  insert_from_csv_fast true pre batch_size db = (db1, People.Completed n1) ->
  mapM People.row_values bad = Some vals ->
  execute_values People.insert_sql db1 vals (Z.of_nat (length vals)) = None ->
  insert_from_csv_fast true (pre ++ bad ++ post) batch_size db
  = (db1, People.Raised).
Proof.
  intros Hb Hpre Hone Hrun Hvals Hfail.
  assert (0 < Z.to_nat batch_size)%nat as Hn by lia.
  unfold People.insert_from_csv_fast in *.
  rewrite insert_loop_chunks in * by done.
  rewrite (chunks_app_aligned _ k) by done.
  rewrite (chunks_one_chunk _ bad post) by done.
  rewrite insert_chunks_app, Hrun. cbn [insert_chunks].
  rewrite Hvals. unfold flush. by rewrite Hfail.
Qed.

End Generic.

(** C2, as stated, fails for the people loop. With batches of two, the
    first batch holds the same key twice and the database refuses it; the
    run ends there with nothing stored, though the second batch, alone,
    is written without error. *)
Lemma person_loop_aborts_on_bad_chunk :
  People.insert_from_csv_fast Sql.execute_values true [cy; cy; dee] 2 []
  = ([], People.Raised)
  /\ (People.insert_from_csv_fast Sql.execute_values true [dee] 2 []).2
     = People.Completed 1
  /\ length (People.insert_from_csv_fast Sql.execute_values true [dee] 2 []).1
     = 1%nat.
Proof. split; [decide_by_vm | split; decide_by_vm]. Qed.

(** C2, amended. For any behaviour of the storage layer and any input
    [pre ++ bad ++ post] in which [bad] is one chunk and the write of
    [bad] fails in the state that [pre] leaves. The company loop goes on:
    its result is the result on [pre ++ post], so the records of [bad],
    and only they, are missing from the inserted count. The people loop
    stops: the exception is raised again, the table is as [pre] left it,
    and no chunk of [post] is attempted. *)
Theorem chunk_failure_handling (execute_values : storage) :
  (forall now pre bad post batch_size k db db1 n1,
     0 < batch_size ->
     length pre = (k * Z.to_nat batch_size)%nat ->
     one_chunk (Z.to_nat batch_size) bad post ->
     Companies.insert_companies_batch execute_values now pre batch_size db
     = Some (db1, n1) ->
     Companies._execute_batch_insert execute_values db1
       (map (Companies.company_values now) bad) = None ->
     Companies.insert_companies_batch execute_values now
       (pre ++ bad ++ post) batch_size db
     = Companies.insert_companies_batch execute_values now
         (pre ++ post) batch_size db
     /\ forall db2 n2,
          Companies.insert_companies_batch execute_values now
            (pre ++ bad ++ post) batch_size db = Some (db2, n2) ->
          (n2 + length bad <= length (pre ++ bad ++ post))%nat)
  /\ (forall pre bad post batch_size k db db1 n1 vals,
        0 < batch_size ->
        length pre = (k * Z.to_nat batch_size)%nat ->
        one_chunk (Z.to_nat batch_size) bad post ->
        People.insert_from_csv_fast execute_values true pre batch_size db
        = (db1, People.Completed n1) ->
        mapM People.row_values bad = Some vals ->
        execute_values People.insert_sql db1 vals (Z.of_nat (length vals))
        = None ->
        People.insert_from_csv_fast execute_values true
          (pre ++ bad ++ post) batch_size db
        = (db1, People.Raised)).
Proof.
  split.
  - intros. by eapply company_chunk_isolated.
  - intros. by eapply person_chunk_failure_aborts.
Qed.

Lemma chunk_failure_handling_witness :
  (Companies.insert_companies_batch (refusing "bad") 0
     ([company "A"; company "B"] ++ [company "bad"; company "C"]
      ++ [company "D"]) 2 []
   = Companies.insert_companies_batch (refusing "bad") 0
       ([company "A"; company "B"] ++ [company "D"]) 2 [])
  /\ People.insert_from_csv_fast Sql.execute_values true
       ([ann; bob] ++ [cy; cy] ++ [dee]) 2 []
     = ((People.insert_from_csv_fast Sql.execute_values true
           [ann; bob] 2 []).1, People.Raised).
Proof.
  split.
  - apply (proj1 (chunk_failure_handling (refusing "bad")) 0
             [company "A"; company "B"] [company "bad"; company "C"]
             [company "D"] 2 1%nat []
             (map (proposed Companies.query)
                  (map (Companies.company_values 0)
                       [company "A"; company "B"])) 2%nat).
    + lia.
    + reflexivity.
    + left. reflexivity.
    + decide_by_vm.
    + decide_by_vm.
  - apply (proj2 (chunk_failure_handling Sql.execute_values)
             [ann; bob] [cy; cy] [dee] 2 1%nat []
             (People.insert_from_csv_fast Sql.execute_values true
                [ann; bob] 2 []).1 2%nat
             (default [] (mapM People.row_values [cy; cy]))).
    + lia.
    + reflexivity.
    + left. reflexivity.
    + decide_by_vm.
    + decide_by_vm.
    + decide_by_vm.
Defined.

End IsolationProps.

(** ** Running the upsert twice *)

Module IdempotenceProps.
Import Sql Spec Sample ChunkProps IsolationProps.

(** C1. The people upsert run twice on one prepared row whose title is
    null: both runs complete, the first stores one row, and the second
    stores a second row with the same key (name, company_name, title),
    since a null in the key never conflicts. A row whose key has no null
    is stored once. *)
Theorem rerun_duplicates_null_key :
  (run [jane] []).2 = People.Completed 1
  /\ (run [jane] (run [jane] []).1).2 = People.Completed 1
  /\ map key (run [jane] []).1 = [[VStr "Jane Doe"; VStr "Acme"; VNone]]
  /\ map key (run [jane] (run [jane] []).1).1
     = [ [VStr "Jane Doe"; VStr "Acme"; VNone];
         [VStr "Jane Doe"; VStr "Acme"; VNone] ]
  /\ map key (run [ann] (run [ann] []).1).1
     = [[VStr "Ann Lee"; VStr "Acme"; VStr "Engineer"]].
Proof. repeat split; decide_by_vm. Qed.

(** Were the index of the table declared NULLS NOT DISTINCT, the second
    run would find the row of the first. *)
Lemma rerun_on_nulls_not_distinct :
  map key (People.insert_from_csv_fast nulls_not_distinct true [jane] 1000
             (People.insert_from_csv_fast nulls_not_distinct true [jane]
                1000 []).1).1
  = [[VStr "Jane Doe"; VStr "Acme"; VNone]].
Proof. decide_by_vm. Qed.

(** The company statement names 36 target columns, [id] first, and every
    tuple holds 35 values, the owner first: the database refuses every
    batch, and the company loop stores nothing. *)
Lemma company_insert_refused db now c cs :
  Companies._execute_batch_insert Sql.execute_values db
    (map (Companies.company_values now) (c :: cs)) = None.
Proof.
  unfold Companies._execute_batch_insert, execute_values. cbn [map].
  change (100 <=? 0) with false. cbv iota.
  rewrite chunks_cons by (done || lia).
  change (Z.to_nat 100) with 100%nat. cbn [firstn exec_pages].
  unfold exec at 1. cbn [forallb]. reflexivity.
Qed.

Lemma company_batches_store_nothing now batches : forall db n,
  Forall (fun batch : list record => batch <> []) batches ->
  Companies.insert_batches Sql.execute_values now batches db n = (db, n).
Proof.
  induction batches as [|b batches IH]; intros db n Hne; [done |].
  apply Forall_cons in Hne as [Hb Hne].
  cbn [Companies.insert_batches]. destruct b as [|c cs]; [done |].
  rewrite company_insert_refused. by apply IH.
Qed.

End IdempotenceProps.

(** ** Running the upsert twice on keys without NULL *)

Module RerunProps.
Import Sql Spec ConflictProps.

Section OneStatement.

Variable stmt : insert_stmt.
Hypothesis Hkeeps : keeps_keys stmt.

Local Abbreviation K := (key_of (conflict_target stmt)).

Lemma find_conflict_first_key r w :
  find_conflict stmt r w
  = if comparable stmt r then first_key (K r) (keys stmt w) else None.
Proof.
  induction w as [|[e f] w IH]; cbn [find_conflict keys map first_key].
  - by destruct (comparable stmt r).
  - unfold collide. fold (keys stmt w). rewrite IH. cbn [fst].
    destruct (comparable stmt r); cbn [andb]; [| reflexivity].
    by destruct (bool_decide _).
Qed.

Lemma first_key_app_l k ks ks' i :
  first_key k ks = Some i -> first_key k (ks ++ ks') = Some i.
Proof.
  revert i. induction ks as [|k' ks IH]; intros i; [discriminate |].
  cbn [app first_key]. destruct (bool_decide (k = k')); [done |].
  destruct (first_key k ks) as [j|]; [| discriminate].
  intros [= <-]. by rewrite (IH j).
Qed.

Lemma first_key_app_new k ks :
  first_key k ks = None -> first_key k (ks ++ [k]) = Some (length ks).
Proof.
  induction ks as [|k' ks IH]; cbn [app first_key length].
  - by rewrite bool_decide_eq_true_2.
  - destruct (bool_decide (k = k')); [discriminate |].
    destruct (first_key k ks); [discriminate |]. intros _. by rewrite IH.
Qed.

Lemma first_key_lookup k ks i : first_key k ks = Some i -> ks !! i = Some k.
Proof.
  revert i. induction ks as [|k' ks IH]; intros i; [discriminate |].
  cbn [first_key]. destruct (bool_decide_reflect (k = k')) as [-> |].
  - by intros [= <-].
  - destruct (first_key k ks) as [j|]; [| discriminate].
    intros [= <-]. by apply IH.
Qed.

Lemma key_set_excluded cols r e :
  (forall c, c ∈ cols -> c ∉ conflict_target stmt) ->
  K (set_excluded cols r e) = K e.
Proof.
  intros Hcols. unfold key_of. apply map_ext_in. intros c Hc.
  apply set_excluded_other. intros Hin. apply (Hcols c Hin).
  by apply list_elem_of_In.
Qed.

Lemma keys_app w w' : keys stmt (w ++ w') = keys stmt w ++ keys stmt w'.
Proof. apply map_app. Qed.

Lemma keys_insert w i e f e' f' :
  w !! i = Some (e, f) -> K e' = K e ->
  keys stmt (<[i := (e', f')]> w) = keys stmt w.
Proof.
  intros Hi He. unfold keys.
  change (map ?g ?l) with (g <$> l).
  rewrite list_fmap_insert. cbn [fst]. rewrite He.
  apply list_insert_id. by rewrite list_lookup_fmap, Hi.
Qed.

Lemma keys_unflagged (tbl : table) :
  keys stmt (map (fun e => (e, false)) tbl) = map K tbl.
Proof. unfold keys. rewrite map_map. reflexivity. Qed.

Lemma keys_fst w : map K (map fst w) = keys stmt w.
Proof. unfold keys. by rewrite map_map. Qed.

(** *** The first run *)

Lemma insert_row_touched w seen r w' :
  comparable stmt r = true ->
  touched stmt w seen ->
  insert_row stmt w r = Some w' ->
  touched stmt w' (K r :: seen)
  /\ (updates stmt = true -> K r ∉ seen).
Proof.
  intros Hr Hseen. unfold insert_row.
  rewrite find_conflict_first_key, Hr.
  destruct (first_key (K r) (keys stmt w)) as [i|] eqn:Hfind.
  - assert (updates stmt
            = match on_conflict stmt with
              | DoNothing => false | DoUpdateSet _ => true end) as Hupd
      by reflexivity.
    destruct (on_conflict stmt) as [|cols] eqn:Hact.
    + intros [= <-]. split; [| congruence].
      intros k [-> | Hk]%elem_of_cons; [| by apply Hseen].
      exists i. split; [done | congruence].
    + destruct (w !! i) as [[e []]|] eqn:Hi; try discriminate.
      intros [= <-].
      assert (keys stmt (<[i := (set_excluded cols r e, true)]> w)
              = keys stmt w) as Hkeys.
      { eapply keys_insert; [done |]. apply key_set_excluded.
        intros c Hc. apply Hkeeps. by rewrite Hact. }
      split.
      * intros k Hk. rewrite Hkeys.
        assert (exists j, first_key k (keys stmt w) = Some j) as [j Hj].
        { apply elem_of_cons in Hk as [-> | Hk]; [eauto |].
          destruct (Hseen k Hk) as (j & Hj & _). eauto. }
        exists j. split; [done |]. intros _.
        destruct (decide (i = j)) as [<- | Hne].
        -- eexists. apply list_lookup_insert_eq. by eapply lookup_lt_Some.
        -- rewrite list_lookup_insert_ne by done.
           apply elem_of_cons in Hk as [-> | Hk];
             [rewrite Hfind in Hj; by injection Hj |].
           destruct (Hseen k Hk) as (j' & Hj' & Hflag).
           rewrite Hj in Hj'. injection Hj' as <-. by apply Hflag.
      * intros _ Hk. destruct (Hseen _ Hk) as (j & Hj & Hflag).
        rewrite Hfind in Hj. injection Hj as <-.
        destruct (Hflag Hupd) as [e' He']. congruence.
  - intros [= <-]. split.
    + intros k Hk. rewrite keys_app.
      apply elem_of_cons in Hk as [-> | Hk].
      * exists (length w). cbn [keys map fst].
        split.
        -- replace (length w) with (length (keys stmt w))
             by (unfold keys; apply length_map).
           by apply first_key_app_new.
        -- intros _. exists r. by rewrite lookup_app_r, Nat.sub_diag.
      * destruct (Hseen k Hk) as (j & Hj & Hflag). exists j.
        split; [by apply first_key_app_l |].
        intros Hu. destruct (Hflag Hu) as [e He]. exists e.
        rewrite lookup_app_l; [done | by eapply lookup_lt_Some].
    + intros _ Hk. destruct (Hseen _ Hk) as (j & Hj & _). congruence.
Qed.

Lemma insert_rows_touched rows : forall w seen w',
  Forall (fun r => comparable stmt r = true) rows ->
  touched stmt w seen ->
  insert_rows stmt w rows = Some w' ->
  touched stmt w' (rev (map K rows) ++ seen)
  /\ (updates stmt = true -> NoDup (rev (map K rows) ++ seen) \/ ~ NoDup seen).
Proof.
  induction rows as [|r rows IH]; intros w seen w' Hcomp Hseen.
  - intros [= <-]. split; [done |]. intros _.
    destruct (decide (NoDup seen)); [by left | by right].
  - apply Forall_cons in Hcomp as [Hr Hcomp]. cbn [insert_rows].
    destruct (insert_row stmt w r) as [w1|] eqn:H1; [| discriminate].
    intros Hrest.
    destruct (insert_row_touched _ _ _ _ Hr Hseen H1) as [Ht Hnew].
    destruct (IH _ _ _ Hcomp Ht Hrest) as [Ht' Hdup].
    cbn [map rev]. rewrite <- app_assoc. cbn [app].
    split; [done |]. intros Hu.
    destruct (Hdup Hu) as [Hnd | Hnd]; [by left |].
    right. intros Hs. apply Hnd. constructor; [by apply Hnew | done].
Qed.

(** *** The second run *)

Section Again.

(** The keys of the table the second run starts from. *)
Variable ks : list (list value).

Lemma insert_row_again w seen r :
  comparable stmt r = true ->
  retouched stmt ks w seen ->
  is_Some (first_key (K r) ks) ->
  (updates stmt = true -> K r ∉ seen) ->
  exists w', insert_row stmt w r = Some w' /\ retouched stmt ks w' (K r :: seen).
Proof.
  intros Hr [Hkeys Hflags] [i Hfind] Hnew. unfold insert_row.
  rewrite find_conflict_first_key, Hr, Hkeys, Hfind.
  assert (updates stmt
          = match on_conflict stmt with
            | DoNothing => false | DoUpdateSet _ => true end) as Hupd
    by reflexivity.
  destruct (on_conflict stmt) as [|cols] eqn:Hact.
  - exists w. split; [done |]. split; [done |].
    intros j e Hj. destruct (Hflags j e Hj) as (k & Hk & Hkj).
    exists k. split; [by apply list_elem_of_further | done].
  - pose proof (first_key_lookup _ _ _ Hfind) as Hlook.
    rewrite <- Hkeys in Hlook. unfold keys in Hlook.
    change (map ?g ?l) with (g <$> l) in Hlook.
    rewrite list_lookup_fmap in Hlook.
    destruct (w !! i) as [[e f]|] eqn:Hi; [| discriminate].
    cbn [fmap option_fmap option_map fst] in Hlook. injection Hlook as He.
    destruct f.
    + exfalso. destruct (Hflags i e Hi) as (k & Hk & Hki).
      apply first_key_lookup in Hki, Hfind.
      rewrite Hfind in Hki. injection Hki as <-. by apply (Hnew Hupd).
    + eexists. split; [done |].
      assert (keys stmt (<[i := (set_excluded cols r e, true)]> w) = ks)
        as Hkeys'.
      { rewrite <- Hkeys. eapply keys_insert; [done |].
        apply key_set_excluded. intros c Hc. apply Hkeeps. by rewrite Hact. }
      split; [done |]. intros j e' Hj.
      destruct (decide (i = j)) as [<- | Hne].
      * exists (K r). split; [apply list_elem_of_here | done].
      * rewrite list_lookup_insert_ne in Hj by done.
        destruct (Hflags j e' Hj) as (k & Hk & Hkj).
        exists k. split; [by apply list_elem_of_further | done].
Qed.

Lemma insert_rows_again rows : forall w seen,
  Forall (fun r => comparable stmt r = true) rows ->
  retouched stmt ks w seen ->
  Forall (fun r => is_Some (first_key (K r) ks)) rows ->
  (updates stmt = true ->
   NoDup (map K rows) /\ forall r, r ∈ rows -> K r ∉ seen) ->
  exists w', insert_rows stmt w rows = Some w' /\ keys stmt w' = ks.
Proof.
  induction rows as [|r rows IH]; intros w seen Hcomp Hre Hin Hnew.
  - exists w. split; [done | apply Hre].
  - apply Forall_cons in Hcomp as [Hr Hcomp].
    apply Forall_cons in Hin as [Hfind Hin].
    destruct (insert_row_again w seen r Hr Hre Hfind) as (w1 & H1 & Hre1).
    { intros Hu. apply (Hnew Hu). apply list_elem_of_here. }
    cbn [insert_rows]. rewrite H1.
    apply (IH w1 (K r :: seen)); [done | done | done |].
    intros Hu. destruct (Hnew Hu) as [Hnd Hseen].
    cbn [map] in Hnd. apply NoDup_cons in Hnd as [Hr' Hnd].
    split; [done |]. intros r' Hr'in [Heq | Hs]%elem_of_cons.
    + apply Hr'. rewrite <- Heq. apply list_elem_of_fmap. by exists r'.
    + by apply (Hseen r'); [apply list_elem_of_further |].
Qed.

End Again.

Lemma first_key_is_Some_app k ks extra :
  is_Some (first_key k ks) -> is_Some (first_key k (ks ++ extra)).
Proof. intros [i Hi]. exists i. by apply first_key_app_l. Qed.

(** A command only appends keys. *)
Lemma insert_rows_keys_grow rows : forall w w',
  insert_rows stmt w rows = Some w' ->
  exists extra, keys stmt w' = keys stmt w ++ extra.
Proof.
  induction rows as [|r rows IH]; intros w w'; cbn [insert_rows].
  - intros [= <-]. exists []. by rewrite app_nil_r.
  - destruct (insert_row stmt w r) as [w1|] eqn:H1; [| discriminate].
    intros Hrest. destruct (IH _ _ Hrest) as [extra Hextra].
    assert (exists extra1, keys stmt w1 = keys stmt w ++ extra1) as [extra1 H].
    { unfold insert_row in H1.
      destruct (find_conflict stmt r w) as [i|].
      - destruct (on_conflict stmt) as [|cols] eqn:Hact.
        + injection H1 as <-. exists []. by rewrite app_nil_r.
        + destruct (w !! i) as [[e []]|] eqn:Hi; try discriminate.
          injection H1 as <-. exists []. rewrite app_nil_r.
          eapply keys_insert; [done |]. apply key_set_excluded.
          intros c Hc. apply Hkeeps. by rewrite Hact.
      - injection H1 as <-. eexists. apply keys_app. }
    exists (extra1 ++ extra). by rewrite Hextra, H, app_assoc.
Qed.

Lemma exec_present (tbl tbl1 : table) (values : list tuple) :
  Forall (fun t => comparable stmt (proposed stmt t) = true) values ->
  exec stmt tbl values = Some tbl1 ->
  present stmt values tbl1 /\ exists extra, map K tbl1 = map K tbl ++ extra.
Proof.
  intros Hcomp. unfold exec, present. 
  destruct (forallb _ values); [| discriminate].
  destruct (insert_rows stmt _ _) as [w1|] eqn:Hrun; [| discriminate].
  intros [= <-].
  assert (Forall (fun r => comparable stmt r = true)
                 (map (proposed stmt) values)) as Hcomp'.
  { apply Forall_forall. intros r [t [-> Ht]]%list_elem_of_fmap.
    rewrite Forall_forall in Hcomp. by apply Hcomp. }
  destruct (insert_rows_touched _ _ [] _ Hcomp'
              ltac:(by intros k ?%elem_of_nil) Hrun) as [Htouched Hdup].
  rewrite app_nil_r in *. rewrite keys_fst.
  split; [split; [done | split] |].
  - apply Forall_forall. intros t Ht.
    destruct (Htouched (K (proposed stmt t))) as (i & Hi & _); [| by exists i].
    apply list_elem_of_In, (proj1 (in_rev _ _)), in_map, in_map.
    by apply list_elem_of_In.
  - intros Hu.
    destruct (Hdup Hu) as [Hnd | Hnd]; [| destruct Hnd; constructor].
    apply NoDup_ListNoDup, NoDup_rev in Hnd.
    rewrite rev_involutive in Hnd. by apply NoDup_ListNoDup.
  - destruct (insert_rows_keys_grow _ _ _ Hrun) as [extra Hextra].
    exists extra. by rewrite Hextra, keys_unflagged.
Qed.

(** A command whose rows are in the table succeeds and leaves the keys
    of the table as they are: no row is added. *)
Lemma exec_again (tbl : table) (values : list tuple) :
  Forall (fun t => comparable stmt (proposed stmt t) = true) values ->
  present stmt values tbl ->
  exists tbl2, exec stmt tbl values = Some tbl2 /\ map K tbl2 = map K tbl.
Proof.
  intros Hcomp (Harity & Hin & Hnd). unfold exec. rewrite Harity.
  destruct (insert_rows_again (map K tbl) (map (proposed stmt) values)
              (map (fun e => (e, false)) tbl) [])
    as (w2 & Hrun2 & Hkeys2).
  - apply Forall_forall. intros r [t [-> Ht]]%list_elem_of_fmap.
    rewrite Forall_forall in Hcomp. by apply Hcomp.
  - split; [apply keys_unflagged |].
    intros i e Hi. change (map ?g ?l) with (g <$> l) in Hi.
    rewrite list_lookup_fmap in Hi. by destruct (tbl !! i).
  - apply Forall_forall. intros r [t [-> Ht]]%list_elem_of_fmap.
    rewrite Forall_forall in Hin. by apply Hin.
  - intros Hu. split; [by apply Hnd | by intros r _ ?%elem_of_nil].
  - rewrite Hrun2. eexists. split; [reflexivity |]. by rewrite keys_fst.
Qed.

(** The table may have grown since the first run. *)
Lemma present_grow values (tbl tbl' : table) extra :
  map K tbl' = map K tbl ++ extra -> present stmt values tbl -> present stmt values tbl'.
Proof.
  intros Hext (Harity & Hin & Hnd). split; [done | split; [| done]].
  eapply Forall_impl; [exact Hin |]. intros t Ht. cbv beta in *.
  rewrite Hext. by apply first_key_is_Some_app.
Qed.

Lemma present_same_keys values (tbl tbl' : table) :
  map K tbl' = map K tbl -> present stmt values tbl -> present stmt values tbl'.
Proof.
  intros Hk. apply (present_grow _ _ _ []). by rewrite app_nil_r.
Qed.

End OneStatement.

(** *** The whole run of the people insert *)

Local Abbreviation key := (key_of (conflict_target People.insert_sql)).

Lemma people_keeps_keys : keeps_keys People.insert_sql.
Proof.
  intros c Hc Hin. cbn in Hc, Hin.
  repeat (apply elem_of_cons in Hc as [-> | Hc];
          [repeat (apply elem_of_cons in Hin as [Hin | Hin];
                   [discriminate |]);
           by apply elem_of_nil in Hin |]).
  by apply elem_of_nil in Hc.
Qed.

Lemma execute_values_one_page stmt (db : table) (vals : list tuple) :
  vals <> [] ->
  Sql.execute_values stmt db vals (Z.of_nat (length vals))
  = exec stmt db vals.
Proof.
  intros Hne. unfold Sql.execute_values.
  assert (0 < length vals)%nat as Hlen by (destruct vals; [done | simpl; lia]).
  destruct (Z.leb_spec (Z.of_nat (length vals)) 0); [lia |].
  rewrite Nat2Z.id.
  rewrite <- (app_nil_r vals) at 2.
  rewrite ChunkProps.chunks_one_chunk by (done || by left).
  rewrite ChunkProps.chunks_nil. cbn [exec_pages].
  by destruct (exec stmt db vals).
Qed.

Lemma mapM_comparable c vals :
  Forall (fun row => comparable_row row = true) c ->
  mapM People.row_values c = Some vals ->
  Forall (fun t => comparable People.insert_sql
                     (proposed People.insert_sql t) = true) vals
  /\ length vals = length c.
Proof.
  intros Hc Hm. split; [| symmetry; by eapply length_mapM].
  apply mapM_Some_1 in Hm. induction Hm as [|row t c vals Hrow _ IH];
    [constructor |].
  apply Forall_cons in Hc as [Hr Hc]. constructor; [| by apply IH].
  unfold comparable_row in Hr. by rewrite Hrow in Hr.
Qed.

Lemma chunks_good n (l : list raw_record) :
  (0 < n)%nat ->
  Forall (fun row => comparable_row row = true) l ->
  Forall good_chunk (chunks n l).
Proof.
  intros Hn. remember (length l) as m eqn:Hm. revert l Hm.
  induction m as [m IH] using lt_wf_ind. intros l Hm Hl.
  destruct l as [|x l]; [constructor |].
  rewrite ChunkProps.chunks_cons by done. constructor.
  - split; [destruct n; [lia | done] | by apply Forall_take].
  - apply (IH (length (drop n (x :: l)))); [| done | by apply Forall_drop].
    rewrite length_drop. simpl in *. lia.
Qed.

Lemma first_run cs : forall (db db1 : table) n n1,
  Forall good_chunk cs ->
  insert_chunks Sql.execute_values cs db n = (db1, People.Completed n1) ->
  (exists extra, map key db1 = map key db ++ extra)
  /\ n1 = (n + length (concat cs))%nat
  /\ Forall (fun c => exists vals,
               mapM People.row_values c = Some vals
               /\ present People.insert_sql vals db1) cs.
Proof.
  induction cs as [|c cs IH]; intros db db1 n n1 Hgood.
  - intros [= <- <-]. split; [exists []; by rewrite app_nil_r |].
    split; [simpl; lia | constructor].
  - apply Forall_cons in Hgood as [[Hne Hc] Hgood]. cbn [insert_chunks].
    destruct (mapM People.row_values c) as [vals|] eqn:Hm; [| discriminate].
    destruct (mapM_comparable _ _ Hc Hm) as [Hcomp Hlen].
    unfold flush. rewrite execute_values_one_page
      by (destruct vals; [by destruct c | done]).
    destruct (exec People.insert_sql db vals) as [db'|] eqn:Hexec;
      [| discriminate].
    intros Hrest.
    destruct (exec_present _ people_keeps_keys _ _ _ Hcomp Hexec)
      as [Hpres [extra Hextra]].
    destruct (IH _ _ _ _ Hgood Hrest) as ([extra' Hextra'] & -> & Hall).
    split; [exists (extra ++ extra'); by rewrite Hextra', Hextra, app_assoc |].
    split; [cbn [concat]; rewrite length_app; lia |].
    constructor; [| done]. exists vals. split; [done |].
    by eapply present_grow.
Qed.

Lemma second_run cs : forall (db : table) n,
  Forall (fun c => good_chunk c
                   /\ exists vals, mapM People.row_values c = Some vals
                                   /\ present People.insert_sql vals db) cs ->
  exists db2,
    insert_chunks Sql.execute_values cs db n
    = (db2, People.Completed (n + length (concat cs)))
    /\ map key db2 = map key db.
Proof.
  induction cs as [|c cs IH]; intros db n Hall.
  - exists db. split; [| done]. cbn [insert_chunks concat length].
    by rewrite Nat.add_0_r.
  - apply Forall_cons in Hall as [[[Hne Hc] (vals & Hm & Hpres)] Hall].
    cbn [insert_chunks]. rewrite Hm.
    destruct (mapM_comparable _ _ Hc Hm) as [Hcomp Hlen].
    unfold flush. rewrite execute_values_one_page
      by (destruct vals; [by destruct c | done]).
    destruct (exec_again _ people_keeps_keys _ _ Hcomp Hpres)
      as (db' & Hexec & Hkeys).
    rewrite Hexec.
    destruct (IH db' (n + length vals)%nat) as (db2 & Hrun & Hkeys2).
    { eapply Forall_impl; [exact Hall |].
      intros c' (Hg & vals' & Hm' & Hp'). split; [done |].
      exists vals'. split; [done |]. by eapply present_same_keys. }
    exists db2. split; [| by rewrite Hkeys2].
    rewrite Hrun. do 2 f_equal. cbn [concat]. rewrite length_app. lia.
Qed.

(** On a prepared file in which every row converts and no key has a
    NULL, a run that completes can be repeated: the second run completes
    with the same count and leaves the keys of the table as they are. *)
Lemma people_rerun_without_nulls input batch_size (db db1 : table) n :
  0 < batch_size ->
  Forall (fun row => comparable_row row = true) input ->
  People.insert_from_csv_fast Sql.execute_values true input batch_size db
  = (db1, People.Completed n) ->
  exists db2,
    People.insert_from_csv_fast Sql.execute_values true input batch_size db1
    = (db2, People.Completed n)
    /\ map key db2 = map key db1.
Proof.
  intros Hb Hin. unfold People.insert_from_csv_fast.
  rewrite !IsolationProps.insert_loop_chunks by done.
  intros Hrun.
  pose proof (chunks_good (Z.to_nat batch_size) input ltac:(lia) Hin) as Hgood.
  destruct (first_run _ _ _ _ _ Hgood Hrun) as (_ & -> & Hall).
  destruct (second_run (chunks (Z.to_nat batch_size) input) db1 0)
    as (db2 & Hrun2 & Hkeys).
  - apply Forall_forall. intros c Hc.
    rewrite Forall_forall in Hgood, Hall. split; [by apply Hgood | by apply Hall].
  - exists db2. by split.
Qed.

End RerunProps.

(** * Further properties of the normaliser *)

Module SizeMore.
Import People Spec Terms SizeProps.

Lemma bucket_by_count_allowed n : bucket_by_count n ∈ ALLOWED_SIZES.
Proof. unfold bucket_by_count. repeat case_match; decide_by_vm. Qed.

Lemma bucket_by_lower_allowed n : bucket_by_lower n ∈ ALLOWED_SIZES.
Proof. rewrite bucket_by_lower_shift. apply bucket_by_count_allowed. Qed.

Lemma size_mapping_allowed k label :
  size_mapping !! k = Some label -> label ∈ ALLOWED_SIZES.
Proof.
  assert (map_Forall (fun _ v => v ∈ ALLOWED_SIZES) size_mapping) as H
    by decide_by_vm.
  intros Hk. by apply (H k).
Qed.

(** X1. Whatever the two inputs are, a label that [normalize_size] returns
    is one of the eight labels of [ALLOWED_SIZES]. *)
Theorem normalize_size_allowed (cs ss label : string) :
  normalize_size cs ss = Some label -> label ∈ ALLOWED_SIZES.
Proof.
  unfold normalize_size.
  destruct (negb (Py.truthy cs) && negb (Py.truthy ss)); [discriminate |].
  destruct (numeric_count cs) as [count|].
  { intros [= <-]. apply bucket_by_count_allowed. }
  destruct (size_mapping !! _) as [l|] eqn:Hl.
  { intros [= <-]. by eapply size_mapping_allowed. }
  destruct (Py.first_number _); [| discriminate].
  intros [= <-]. apply bucket_by_lower_allowed.
Qed.

Lemma normalize_size_allowed_witness :
  "201-500 employees" ∈ ALLOWED_SIZES.
Proof.
  apply (normalize_size_allowed "" " 250 - 500 Employees").
  vm_compute. reflexivity.
Defined.





(** X3. [normalize_size] returns no label exactly when it has no signal:
    the count is not usable, the cleaned size text is not in the lookup
    table, and the size text holds no digit. *)
Theorem normalize_size_none (cs ss : string) :
  normalize_size cs ss = None
  <-> numeric_count cs = None
      /\ size_mapping !! clean_size (size_text ss) = None
      /\ Py.first_number (size_text ss) = None.
Proof.
  unfold normalize_size. split.
  - destruct cs as [|c cr].
    + destruct ss as [|d dr]; [intros _; by vm_compute |].
      cbn [Py.truthy negb andb].
      change (numeric_count "") with (@None Z). cbv iota.
      destruct (size_mapping !! _); [discriminate |].
      by destruct (Py.first_number _).
    + cbn [Py.truthy negb andb].
      destruct (numeric_count _); [discriminate |].
      destruct (size_mapping !! _); [discriminate |].
      by destruct (Py.first_number _).
  - intros (-> & -> & ->). by destruct (negb _ && negb _).
Qed.

Lemma lower_char_idem c : Py.lower_char (Py.lower_char c) = Py.lower_char c.
Proof. destruct c as [[] [] [] [] [] [] [] []]; reflexivity. Qed.

Lemma lower_idem s : Py.lower (Py.lower s) = Py.lower s.
Proof.
  induction s as [|c r IH]; [done |]. cbn [Py.lower].
  by rewrite lower_char_idem, IH.
Qed.

Lemma truthy_lower s : Py.truthy (Py.lower s) = Py.truthy s.
Proof. by destruct s. Qed.

(** X4. The size text is read without regard to letter case: lower-casing
    it beforehand changes nothing. *)
Theorem normalize_size_case_insensitive (cs ss : string) :
  normalize_size cs (Py.lower ss) = normalize_size cs ss.
Proof.
  unfold normalize_size, size_text.
  by rewrite truthy_lower, lower_idem.
Qed.

End SizeMore.

Module SeniorityMore.
Import People Spec Terms SeniorityProps SizeMore.

Lemma infer_seniority_level_none (title : option string) :
  infer_seniority_level title = None <-> title = None \/ title = Some "".
Proof.
  destruct title as [[|c r]|].
  - split; [by right | done].
  - unfold infer_seniority_level.
    change (negb (Py.truthy (String c r))) with false. cbv iota.
    split.
    + repeat case_match; discriminate.
    + intros [? | ?]; discriminate.
  - split; [by left | done].
Qed.

(** X5. [infer_seniority_level] gives no level exactly for a missing or
    empty title, and a level that it gives is one of the six levels. *)
Theorem infer_seniority_level_range (title : option string) :
  (infer_seniority_level title = None <-> title = None \/ title = Some "")
  /\ forall level, infer_seniority_level title = Some level ->
                   level ∈ seniority_levels.
Proof.
  split; [apply infer_seniority_level_none |].
  destruct title as [[|c r]|]; [discriminate | | discriminate].
  unfold infer_seniority_level.
  change (negb (Py.truthy (String c r))) with false. cbv iota.
  intros level. repeat case_match; intros [= <-]; decide_by_vm.
Qed.

Lemma infer_seniority_level_range_witness :
  "Manager" ∈ seniority_levels.
Proof.
  apply (proj2 (infer_seniority_level_range (Some "Plant Manager"))).
  vm_compute. reflexivity.
Defined.

(** X6. Titles are classified without regard to letter case. *)
Theorem infer_seniority_level_case_insensitive (t : string) :
  infer_seniority_level (Some (Py.lower t)) = infer_seniority_level (Some t).
Proof.
  unfold infer_seniority_level. by rewrite truthy_lower, lower_idem.
Qed.

(** X7. A title that contains "director", in any letter case, is
    classified C-Suite; a title that is classified Director contains
    "head of" and does not contain "director". *)
Theorem director_only_through_head_of (t : string) :
  (Py.contains "director" (Py.lower t) = true ->
   infer_seniority_level (Some t) = Some "C-Suite")
  /\ (infer_seniority_level (Some t) = Some "Director" ->
      Py.contains "head of" (Py.lower t) = true
      /\ Py.contains "director" (Py.lower t) = false).
Proof.
  split; [apply director_title_is_c_suite |].
  intros H.
  destruct (Py.contains "director" (Py.lower t)) eqn:Hd.
  { rewrite (director_title_is_c_suite t Hd) in H. discriminate. }
  split; [| done].
  destruct t as [|c r]; [discriminate |].
  unfold infer_seniority_level in H.
  change (negb (Py.truthy (String c r))) with false in H. cbv iota in H.
  repeat (match type of H with
          | (if ?b then _ else _) = _ =>
              destruct b eqn:?; try discriminate H
          end).
  match goal with
  | Hany : Py.any_in ["director"; "head of"] _ = true |- _ =>
      unfold Py.any_in in Hany; cbn [existsb] in Hany;
      rewrite Hd in Hany; cbn [orb] in Hany;
      by rewrite orb_false_r in Hany
  end.
Qed.

Lemma director_only_through_head_of_witness :
  infer_seniority_level (Some "Managing Director") = Some "C-Suite"
  /\ Py.contains "head of" (Py.lower "Head of Sales") = true.
Proof.
  split.
  - apply (proj1 (director_only_through_head_of "Managing Director")).
    vm_compute. reflexivity.
  - apply (proj2 (director_only_through_head_of "Head of Sales")).
    vm_compute. reflexivity.
Defined.

End SeniorityMore.

Module RowMore.
Import People Spec Terms NormalizerProps SeniorityMore.

Lemma rstrip_with_idem p s :
  Py.rstrip_with p (Py.rstrip_with p s) = Py.rstrip_with p s.
Proof.
  induction s as [|c r IH]; [done |]. cbn [Py.rstrip_with].
  destruct (Py.rstrip_with p r) as [|c' r'] eqn:Hr.
  - destruct (p c) eqn:Hc; [done |]. cbn [Py.rstrip_with]. by rewrite Hc.
  - cbn [Py.rstrip_with]. cbn [Py.rstrip_with] in IH. rewrite IH. reflexivity.
Qed.

Lemma lstrip_with_idem p s :
  Py.lstrip_with p (Py.lstrip_with p s) = Py.lstrip_with p s.
Proof.
  induction s as [|c r IH]; [done |]. cbn [Py.lstrip_with].
  destruct (p c) eqn:Hc; [done |]. cbn [Py.lstrip_with]. by rewrite Hc.
Qed.

(** What is left of a left-stripped string starts, if anywhere, with a
    character that is kept. *)
Lemma lstrip_with_head_kept p s c r :
  Py.lstrip_with p s = String c r -> p c = false.
Proof.
  induction s as [|a t IH]; [discriminate |]. cbn [Py.lstrip_with].
  destruct (p a) eqn:Ha; [done |]. by intros [= <- _].
Qed.

Lemma strip_idem s : Py.strip (Py.strip s) = Py.strip s.
Proof.
  unfold Py.strip.
  destruct (Py.lstrip_with Py.isspace s) as [|c r] eqn:Hl; [done |].
  pose proof (lstrip_with_head_kept _ _ _ _ Hl) as Hc.
  assert (exists r', Py.rstrip_with Py.isspace (String c r) = String c r')
    as [r' Hr].
  { cbn [Py.rstrip_with]. destruct (Py.rstrip_with Py.isspace r); rewrite ?Hc; eauto. }
  rewrite Hr. cbn [Py.lstrip_with]. rewrite Hc, <- Hr.
  apply rstrip_with_idem.
Qed.

(** X8. A processed row has a value for every column of [INSERT_COLUMNS]
    and for nothing else, so the writer, whose field names are
    [INSERT_COLUMNS], is handed exactly its fields. *)
Theorem process_csv_row_columns (row : raw_record) (now column : string) :
  is_Some (process_csv_row row now !! column) <-> column ∈ INSERT_COLUMNS.
Proof.
  rewrite <- elem_of_dom. unfold process_csv_row.
  rewrite dom_list_to_map_L. cbn [fmap list_fmap fst].
  by rewrite elem_of_list_to_set.
Qed.

(** X9. In a processed row the seniority level is null exactly when the
    title is null. *)
Theorem seniority_null_iff_title_null (row : raw_record) (now : string) :
  process_csv_row row now !! "seniority_level" = Some VNone
  <-> process_csv_row row now !! "title" = Some VNone.
Proof.
  change (process_csv_row row now !! "seniority_level")
    with (Some (of_option (infer_seniority_level (title_of row)))).
  change (process_csv_row row now !! "title")
    with (Some (of_option (title_of row))).
  pose proof (infer_seniority_level_none (title_of row)) as Hnone.
  unfold title_of in *. destruct (field row "Title") as [|c r].
  - done.
  - cbn [Py.truthy of_option] in *.
    destruct (infer_seniority_level (Some (String c r))) eqn:Hi.
    + done.
    + destruct (proj1 Hnone eq_refl); discriminate.
Qed.

Lemma join_comma_nonempty parts :
  parts <> [] -> Forall (fun p => Py.truthy p = true) parts ->
  Py.truthy (join_comma parts) = true.
Proof.
  destruct parts as [|p rest]; [done |]. intros _ [Hp _]%Forall_cons.
  destruct p as [|c r]; [discriminate |]. by destruct rest.
Qed.

(** X10. The location of a row is null exactly when city, state and
    country are all blank; otherwise it is a non-empty string. *)
Theorem location_null_iff_blank (row : raw_record) :
  (location row = None
   <-> field row "City" = "" /\ field row "State" = ""
       /\ field row "Country" = "")
  /\ location row <> Some "".
Proof.
  unfold location.
  assert (Forall (fun p => Py.truthy p = true)
            (List.filter Py.truthy
               [field row "City"; field row "State"; field row "Country"]))
    as Hall.
  { apply Forall_forall. intros p Hp%list_elem_of_In.
    by apply filter_In in Hp as [_ Hp]. }
  split.
  - cbn [List.filter].
    destruct (field row "City"), (field row "State"), (field row "Country");
      cbn [Py.truthy]; split; (done || intros (? & ? & ?); done).
  - destruct (List.filter _ _) as [|p rest] eqn:Hf; [done |].
    intros H.
    pose proof (join_comma_nonempty (p :: rest) ltac:(done) Hall) as Hne.
    assert (join_comma (p :: rest) = "") as Hj by congruence.
    by rewrite Hj in Hne.
Qed.

(** No piece of a split string holds the separator. *)
Lemma split_pieces sep s :
  Forall (fun piece => Py.all_chars (fun c => negb (Ascii.eqb sep c)) piece
                       = true)
         (Py.split sep s).
Proof.
  induction s as [|c r IH]; [by repeat constructor |].
  cbn [Py.split]. destruct (Ascii.eqb sep c) eqn:Hc.
  - constructor; [done | exact IH].
  - destruct (Py.split sep r) as [|h t]; [repeat constructor; cbn; by rewrite Hc |].
    apply Forall_cons in IH as [Hh Ht].
    constructor; [| done]. cbn [Py.all_chars]. by rewrite Hc, Hh.
Qed.

Lemma all_chars_lstrip q p s :
  Py.all_chars q s = true -> Py.all_chars q (Py.lstrip_with p s) = true.
Proof.
  induction s as [|c r IH]; [done |]. cbn [Py.lstrip_with].
  destruct (p c); [| done]. cbn [Py.all_chars].
  intros [_ Hr]%andb_true_iff. by apply IH.
Qed.

Lemma all_chars_rstrip q p s :
  Py.all_chars q s = true -> Py.all_chars q (Py.rstrip_with p s) = true.
Proof.
  induction s as [|c r IH]; [done |]. cbn [Py.all_chars Py.rstrip_with].
  intros [Hc Hr]%andb_true_iff. specialize (IH Hr).
  destruct (Py.rstrip_with p r).
  - destruct (p c); [done |]. cbn [Py.all_chars]. by rewrite Hc.
  - cbn [Py.all_chars] in *. by rewrite Hc, IH.
Qed.

(** X11. The identifier taken from a profile URL holds no slash, and the
    department, the first entry of the departments list, holds no comma. *)
Theorem single_segment (row : raw_record) (url : string) :
  (forall id, linkedin_id url = Some id -> no_char "/" id)
  /\ (forall d, department row = Some d -> no_char "," d).
Proof.
  split.
  - intros id. rewrite linkedin_id_parts. cbv zeta.
    destruct (Py.mem _ _); [| discriminate].
    destruct (Py.index _ _) as [idx|]; [| discriminate]. cbn [mbind option_bind].
    intros Hid. pose proof (split_pieces "/" (Py.rstrip_char "/" url)) as Hall.
    rewrite Forall_forall in Hall. apply Hall.
    by eapply list_elem_of_lookup_2.
  - intros d. unfold department.
    destruct (Py.truthy _); [| discriminate]. intros [= <-].
    unfold no_char, Py.strip. apply all_chars_rstrip, all_chars_lstrip.
    pose proof (split_pieces "," (field row "Departments")) as Hall.
    destruct (Py.split "," _) as [|h t]; [done |].
    by apply Forall_cons in Hall as [Hh _].
Qed.

Lemma single_segment_witness :
  no_char "/" "jane-doe" /\ no_char "," "Sales".
Proof.
  destruct (single_segment {[ "Departments" := "Sales, Marketing" ]}
              "https://www.linkedin.com/in/jane-doe/") as [Hid Hd].
  split.
  - apply Hid. vm_compute. reflexivity.
  - apply Hd. vm_compute. reflexivity.
Defined.

Lemma or_none_trimmed s v :
  or_none (Py.strip s) = VStr v -> Py.strip v = v /\ v <> "".
Proof.
  unfold or_none. destruct (Py.strip s) as [|c r] eqn:Hs; [discriminate |].
  cbn [Py.truthy]. intros [= <-]. split; [| done].
  rewrite <- Hs. apply strip_idem.
Qed.

(** X12. Every text that a processed row holds under one of the trimmed
    attributes (name, title, company, department, e-mail, phone, profile
    URL, domain) has no white space at either end. Apart from the
    department, none of them is the empty string. *)
Theorem processed_texts_trimmed (row : raw_record) (now attr text : string) :
  attr ∈ trimmed_attributes ->
  process_csv_row row now !! attr = Some (VStr text) ->
  Py.strip text = text /\ (attr <> "department" -> text <> "").
Proof.
  unfold trimmed_attributes. intros Hin.
  repeat (apply elem_of_cons in Hin as [-> | Hin]).
  all: try by apply elem_of_nil in Hin.
  - change (process_csv_row row now !! "company_name")
      with (Some (or_none (field row "Company Name"))).
    intros [= H]. by destruct (or_none_trimmed _ _ H).
  - change (process_csv_row row now !! "name")
      with (Some (or_none (full_name row))).
    intros [= H]. by destruct (or_none_trimmed _ _ H).
  - change (process_csv_row row now !! "title")
      with (Some (of_option (title_of row))).
    unfold title_of, field.
    destruct (Py.strip _) as [|c r] eqn:Hs; [discriminate |].
    cbn [Py.truthy of_option]. intros [= <-].
    split; [| done]. rewrite <- Hs. apply strip_idem.
  - change (process_csv_row row now !! "department")
      with (Some (of_option (department row))).
    unfold department. destruct (Py.truthy _); [| discriminate].
    cbn [of_option]. intros [= <-]. split; [apply strip_idem | done].
  - change (process_csv_row row now !! "email_address")
      with (Some (or_none (field row "Email"))).
    intros [= H]. by destruct (or_none_trimmed _ _ H).
  - change (process_csv_row row now !! "work_email_enriched")
      with (Some (or_none (field row "Email"))).
    intros [= H]. by destruct (or_none_trimmed _ _ H).
  - change (process_csv_row row now !! "phone_number")
      with (Some (phone row)).
    unfold phone, field.
    destruct (Py.strip (Py.get row "Work phone number" "")) as [|c r] eqn:Ha.
    + destruct (Py.strip (Py.get row "Mobile nUmber" "")) as [|c r] eqn:Hb.
      * cbn [Py.truthy]. intros [= H]. by destruct (or_none_trimmed _ _ H).
      * cbn [Py.truthy]. intros [= <-]. split; [| done].
        rewrite <- Hb. apply strip_idem.
    + cbn [Py.truthy]. intros [= <-]. split; [| done].
      rewrite <- Ha. apply strip_idem.
  - change (process_csv_row row now !! "linkedin_url_enriched")
      with (Some (or_none (field row "Person Linkedin Url"))).
    intros [= H]. by destruct (or_none_trimmed _ _ H).
  - change (process_csv_row row now !! "company_domain_enriched")
      with (Some (or_none (field row "Website"))).
    intros [= H]. by destruct (or_none_trimmed _ _ H).
Qed.

Lemma processed_texts_trimmed_witness :
  Py.strip "Jane Doe" = "Jane Doe" /\ ("name" <> "department" -> "Jane Doe" <> "").
Proof.
  apply (processed_texts_trimmed
           {[ "First Name" := "  Jane"; "Last Name" := "Doe " ]} "t" "name").
  - decide_by_vm.
  - vm_compute. reflexivity.
Defined.


End RowMore.

(** * Further properties of the people insert *)

Module UpsertMore.
Import Sql People Spec Terms Sample ConflictProps ChunkProps IsolationProps
  RerunProps.

Lemma convert_text col val :
  String.eqb col "years_experience" = false ->
  String.eqb col "confidence_score" = false ->
  is_Some (convert col val).
Proof.
  intros H1 H2. unfold convert. rewrite H1, H2. cbn [orb].
  destruct (_ || _); [done |]. by destruct (String.eqb col "popularity_index").
Qed.

Lemma convert_integer col val :
  String.eqb col "years_experience" || String.eqb col "confidence_score" = true ->
  is_Some (convert col val)
  <-> val = "" \/ val = "None" \/ is_Some (Py.int val).
Proof.
  intros Hcol. unfold convert. rewrite Hcol.
  destruct (String.eqb_spec val "") as [-> | Hne1]; [by intuition |].
  destruct (String.eqb_spec val "None") as [-> | Hne2]; [by intuition |].
  cbn [orb]. rewrite fmap_is_Some. intuition.
Qed.

(** X14. A prepared row converts to a tuple exactly when its two integer
    cells, [years_experience] and [confidence_score], are empty, "None" or
    integer literals; any other text there raises [ValueError]. A tuple
    that comes out has one value for each of the 32 columns. *)
Theorem row_values_succeeds (row : raw_record) :
  (is_Some (row_values row)
   <-> integer_cell row "years_experience"
       /\ integer_cell row "confidence_score")
  /\ forall vals, row_values row = Some vals ->
                  length vals = length INSERT_COLUMNS.
Proof.
  split.
  - unfold row_values, integer_cell. cbv zeta. split.
    + intros H%mapM_is_Some_1. rewrite Forall_forall in H.
      split.
      * apply (convert_integer "years_experience"); [done |].
        apply (H "years_experience"). decide_by_vm.
      * apply (convert_integer "confidence_score"); [done |].
        apply (H "confidence_score"). decide_by_vm.
    + intros [Hy Hc]. apply mapM_is_Some_2, Forall_forall.
      intros col Hin. unfold compose, INSERT_COLUMNS in *.
      repeat (apply elem_of_cons in Hin as [-> | Hin];
              [first [ by apply convert_text
                     | by apply (convert_integer "years_experience")
                     | by apply (convert_integer "confidence_score") ] |]).
      by apply elem_of_nil in Hin.
  - intros vals H. symmetry. by eapply length_mapM.
Qed.

Lemma row_values_succeeds_witness :
  length (default [] (row_values ann)) = length INSERT_COLUMNS.
Proof.
  apply (proj2 (row_values_succeeds ann)). vm_compute. reflexivity.
Defined.

Section AnyStorage.

Variable execute_values : storage.

Lemma insert_loop_count batch_size rows : forall batch db n db' n',
  insert_loop execute_values batch_size rows batch db n
  = (db', Completed n') ->
  n' = (n + length batch + length rows)%nat.
Proof.
  induction rows as [|row rest IH]; intros batch db n db' n';
    cbn [insert_loop].
  - destruct batch as [|t batch]; [intros [= _ <-]; simpl; lia |].
    destruct (execute_values _ _ _ _); [| discriminate].
    intros [= _ <-]. simpl. lia.
  - destruct (row_values row) as [values|]; [| discriminate]. cbv zeta.
    destruct (batch_size <=? _).
    + destruct (execute_values _ _ _ _); [| discriminate].
      intros H%IH. rewrite length_app in H. simpl in *. lia.
    + intros H%IH. rewrite length_app in H. simpl in *. lia.
Qed.

End AnyStorage.

(** X15. Whatever the storage layer does and whatever the batch size is,
    a run that completes reports every row of the prepared file as
    inserted: [total_inserted] counts the rows sent, conflicts included. *)
Theorem completed_run_counts_every_row (execute_values : storage)
    (connected : bool) (prepared : list raw_record) (batch_size : Z)
    (db db' : table) (n : nat) :
  insert_from_csv_fast execute_values connected prepared batch_size db
  = (db', Completed n) ->
  n = length prepared /\ connected = true.
Proof.
  unfold insert_from_csv_fast. destruct connected; [| discriminate].
  intros H%insert_loop_count. simpl in H. split; [lia | done].
Qed.

Lemma completed_run_counts_every_row_witness :
  2%nat = length [ann; ann] /\ true = true.
Proof.
  apply (completed_run_counts_every_row Sql.execute_values true [ann; ann] 1
           [] (insert_from_csv_fast Sql.execute_values true [ann; ann] 1 []).1).
  decide_by_vm.
Defined.

Lemma table_frames_refl cols (tbl : table) : table_frames cols tbl tbl.
Proof. intros i e Hi. exists e. split; [done | apply agree_except_refl]. Qed.

Lemma insert_loop_frames batch_size rows : forall batch (db : table) n,
  table_frames timestamps db
    (insert_loop Sql.execute_values batch_size rows batch db n).1.
Proof.
  induction rows as [|row rest IH]; intros batch db n; cbn [insert_loop].
  - destruct batch as [|t batch]; [apply table_frames_refl |].
    destruct (Sql.execute_values _ _ _ _) as [db'|] eqn:Hw;
      [| apply table_frames_refl].
    apply (execute_values_frames _ _ _ _ _ Hw).
  - destruct (row_values row) as [values|]; [| apply table_frames_refl].
    cbv zeta. destruct (batch_size <=? _); [| apply IH].
    destruct (Sql.execute_values _ _ _ _) as [db'|] eqn:Hw;
      [| apply table_frames_refl].
    eapply table_frames_trans; [apply (execute_values_frames _ _ _ _ _ Hw) |].
    apply IH.
Qed.

(** X16. A run of the people insert, completed or ended by an exception,
    loses no row: every row stored before is still stored, at its place,
    and only its [updated_at] and [last_updated_at] may have changed. *)
Theorem run_keeps_stored_rows (connected : bool) (prepared : list raw_record)
    (batch_size : Z) (db : table) (i : nat) (e : record) :
  db !! i = Some e ->
  exists e' : record,
    (insert_from_csv_fast Sql.execute_values connected prepared batch_size
       db).1 !! i = Some e'
    /\ forall c, c <> "updated_at" -> c <> "last_updated_at" ->
                 col e' c = col e c.
Proof.
  intros Hi. unfold insert_from_csv_fast. destruct connected.
  - destruct (insert_loop_frames batch_size prepared [] db 0 i e Hi)
      as (e' & He' & Ha).
    exists e'. split; [done |]. intros c H1 H2. by apply Ha, not_timestamp.
  - exists e. by split.
Qed.

Lemma run_keeps_stored_rows_witness :
  exists e' : record,
    (insert_from_csv_fast Sql.execute_values true [ann; cy; cy] 1
       [proposed insert_sql stored_jane]).1 !! 0%nat = Some e'
    /\ forall c, c <> "updated_at" -> c <> "last_updated_at" ->
                 col e' c = col (proposed insert_sql stored_jane) c.
Proof.
  apply (run_keeps_stored_rows true [ann; cy; cy] 1
           [proposed insert_sql stored_jane] 0).
  reflexivity.
Defined.

Section Fresh.

Variable stmt : insert_stmt.
Hypothesis Hkeeps : keeps_keys stmt.

Local Abbreviation K := (key_of (conflict_target stmt)).




End Fresh.



(** X18. On a prepared file in which every row converts and no key has a
    NULL, a run that completes can be repeated: the second run completes
    with the same count, adds no row, leaves the key of every row as it
    is and changes at most [updated_at] and [last_updated_at]. *)
Theorem rerun_adds_no_row (input : list raw_record) (batch_size : Z)
    (db db1 : table) (n : nat) :
  0 < batch_size ->
  Forall (fun row => comparable_row row = true) input ->
  insert_from_csv_fast Sql.execute_values true input batch_size db
  = (db1, Completed n) ->
  exists db2,
    insert_from_csv_fast Sql.execute_values true input batch_size db1
    = (db2, Completed n)
    /\ length db2 = length db1
    /\ map (key_of (conflict_target insert_sql)) db2
       = map (key_of (conflict_target insert_sql)) db1
    /\ table_frames timestamps db1 db2.
Proof.
  intros Hb Hin Hrun.
  destruct (people_rerun_without_nulls input batch_size db db1 n Hb Hin Hrun)
    as (db2 & Hrun2 & Hkeys).
  exists db2. split; [done |]. split; [| split; [done |]].
  - apply (f_equal length) in Hkeys. by rewrite !length_map in Hkeys.
  - pose proof (insert_loop_frames batch_size input [] db1 0) as Hf.
    unfold insert_from_csv_fast in Hrun2. by rewrite Hrun2 in Hf.
Qed.

Lemma rerun_adds_no_row_witness :
  exists db2,
    insert_from_csv_fast Sql.execute_values true [ann; bob; cy] 2
      (insert_from_csv_fast Sql.execute_values true [ann; bob; cy] 2 []).1
    = (db2, Completed 3)
    /\ length db2
       = length (insert_from_csv_fast Sql.execute_values true [ann; bob; cy]
                   2 []).1
    /\ map (key_of (conflict_target insert_sql)) db2
       = map (key_of (conflict_target insert_sql))
             (insert_from_csv_fast Sql.execute_values true [ann; bob; cy] 2
                []).1
    /\ table_frames timestamps
         (insert_from_csv_fast Sql.execute_values true [ann; bob; cy] 2 []).1
         db2.
Proof.
  apply (rerun_adds_no_row [ann; bob; cy] 2 []).
  - lia.
  - repeat constructor.
  - decide_by_vm.
Defined.

End UpsertMore.

(** * Further properties of the companies script *)

Module CompanyMore.
Import Sql Companies Spec Terms Sample NormalizerProps ChunkProps
  IsolationProps IdempotenceProps RowMore.



(** X20. A company that the reader returns has exactly the fifteen
    attributes of the reader; each of them but [employee_count] is a
    string without white space at its ends, and [employee_count] is null
    or an integer. *)
Theorem company_record_shape (int_of_float : string -> parsed)
    (row : raw_record) (company : record) :
  read_row int_of_float row = Some company ->
  (forall k, is_Some (company !! k) <-> k ∈ company_attributes)
  /\ (forall k, k ∈ company_attributes -> k <> "employee_count" ->
        exists s, company !! k = Some (VStr s) /\ Py.strip s = s)
  /\ (company !! "employee_count" = Some VNone
      \/ exists n, company !! "employee_count" = Some (VInt n)).
Proof.
  unfold read_row.
  destruct (employee_count int_of_float row) as [count|] eqn:Hcount;
    [| discriminate].
  cbn [mbind option_bind]. intros [= <-]. split; [| split].
  - intros k. rewrite <- elem_of_dom, !dom_insert_L, dom_empty_L.
    unfold company_attributes.
    rewrite !elem_of_union, !elem_of_singleton, !elem_of_cons, elem_of_nil,
      elem_of_empty.
    reflexivity.
  - intros k Hk Hne. unfold company_attributes in Hk.
    repeat (apply elem_of_cons in Hk as [-> | Hk];
            [first [ done
                   | eexists; split; [reflexivity | apply strip_idem] ] |]).
    by apply elem_of_nil in Hk.
  - change (_ !! "employee_count") with (Some count).
    unfold employee_count in Hcount. cbv zeta in Hcount.
    destruct (Py.truthy _); [| left; congruence].
    destruct (int_of_float _) as [n| |];
      [right; exists n | left |]; congruence.
Qed.

Lemma company_record_shape_witness :
  (forall k, is_Some (bare_company_record !! k) <-> k ∈ company_attributes)
  /\ (forall k, k ∈ company_attributes -> k <> "employee_count" ->
        exists s, bare_company_record !! k = Some (VStr s) /\ Py.strip s = s)
  /\ (bare_company_record !! "employee_count" = Some VNone
      \/ exists n, bare_company_record !! "employee_count" = Some (VInt n)).
Proof.
  apply (company_record_shape (fun _ => ValueError) bare_company).
  decide_by_vm.
Defined.

Lemma reader_named iof rows :
  Forall (fun company : record =>
            exists name, company !! "name" = Some (VStr name))
         (read_enriched_csv iof rows).
Proof.
  apply Forall_forall. intros company Hin.
  apply list_elem_of_omap in Hin as (row & _ & Hrow).
  apply read_row_inv in Hrow as (_ & _ & Hname & _). eauto.
Qed.

Lemma process_companies_filter LOWER (companies : list record) db :
  Forall (fun company : record =>
            exists name, company !! "name" = Some (VStr name)) companies ->
  process_companies LOWER companies db
  = Some (List.filter (is_new LOWER db) companies,
          map (fun company => skipped_entry (name_of company) company)
              (List.filter (fun company => negb (is_new LOWER db company))
                           companies)).
Proof.
  induction companies as [|c rest IH]; [done |].
  intros [[name Hname] Hrest]%Forall_cons.
  assert (name_of c = name) as Hn by (unfold name_of; by rewrite Hname).
  assert (is_new LOWER db c = negb (company_exists LOWER db name)) as Hnew
    by (unfold is_new; by rewrite Hn).
  cbn [process_companies List.filter]. rewrite Hname, (IH Hrest), Hnew.
  cbn [mbind option_bind].
  destruct (company_exists LOWER db name); [| done].
  cbn [negb map]. by rewrite Hn.
Qed.

Lemma filter_lengths {A} (f : A -> bool) (l : list A) :
  (length (List.filter f l) + length (List.filter (fun x => negb (f x)) l)
   = length l)%nat.
Proof.
  induction l as [|x l IH]; [done |]. cbn [List.filter].
  destruct (f x); simpl; lia.
Qed.

(** X21. The pre-check never raises on what the reader returns: it keeps
    for the insert, in order, the companies for which [company_exists] is
    false, and lists the others as skipped, so that the two lists
    together are as long as the input. *)
Theorem precheck_accepts_reader_output (int_of_float : string -> parsed)
    (LOWER : string -> string) (rows : list raw_record) (db : table) :
  let companies := read_enriched_csv int_of_float rows in
  exists companies_to_insert skipped_companies,
    process_companies LOWER companies db
    = Some (companies_to_insert, skipped_companies)
    /\ companies_to_insert = List.filter (is_new LOWER db) companies
    /\ skipped_companies
       = map (fun company => skipped_entry (name_of company) company)
             (List.filter (fun company => negb (is_new LOWER db company))
                          companies)
    /\ (length companies_to_insert + length skipped_companies
        = length companies)%nat.
Proof.
  intros companies. eexists _, _.
  split; [apply process_companies_filter, reader_named |].
  split; [done |]. split; [done |].
  rewrite length_map. apply filter_lengths.
Qed.

Lemma chunks_nonempty {A} n (l : list A) :
  (0 < n)%nat -> Forall (fun chunk => chunk <> []) (chunks n l).
Proof.
  intros Hn. remember (length l) as m eqn:Hm. revert l Hm.
  induction m as [m IH] using lt_wf_ind. intros l Hm.
  destruct l as [|x l]; [constructor |].
  rewrite chunks_cons by done. constructor.
  - destruct n; [lia | done].
  - apply (IH (length (drop n (x :: l)))); [| done].
    rewrite length_drop. simpl in *. lia.
Qed.

(** X22. With the statement as it is written, 36 target columns for 35
    values, [insert_companies_batch] stores nothing and returns 0 for
    every list of companies and every batch size other than 0: the
    database refuses each batch, and the loop logs the error and goes
    on. *)
Theorem company_insert_stores_nothing (now : Z) (companies : list record)
    (batch_size : Z) (db : table) :
  batch_size <> 0 ->
  insert_companies_batch Sql.execute_values now companies batch_size db
  = Some (db, 0%nat).
Proof.
  intros Hb. unfold insert_companies_batch.
  destruct companies as [|c cs]; [done |].
  destruct (Z.eqb_spec batch_size 0); [done |].
  destruct (Z.ltb_spec batch_size 0); [done |].
  f_equal. apply company_batches_store_nothing, chunks_nonempty. lia.
Qed.

Lemma company_insert_stores_nothing_witness :
  insert_companies_batch Sql.execute_values 0
    [bare_company_record; nameless_company_record] 1 [stored_acme]
  = Some ([stored_acme], 0%nat).
Proof.
  apply (company_insert_stores_nothing 0
           [bare_company_record; nameless_company_record] 1 [stored_acme]).
  lia.
Defined.

Section AnyStorage.

Variable execute_values : storage.

Lemma insert_batches_all_stored now bs :
  (forall db values, is_Some (execute_values query db values 100)) ->
  forall db n,
    (insert_batches execute_values now bs db n).2
    = (n + length (concat bs))%nat.
Proof.
  intros Hok. induction bs as [|b bs IH]; intros db n;
    cbn [insert_batches concat].
  - simpl. lia.
  - unfold _execute_batch_insert.
    destruct (Hok db (map (company_values now) b)) as [db' ->].
    rewrite IH, length_app. lia.
Qed.

End AnyStorage.

(** X23. Whatever the storage layer does, [insert_companies_batch] with a
    positive batch size returns normally, and the count it returns is at
    most the number of companies given; it is that number when no batch
    write raises. *)
Theorem company_count_bounds (execute_values : storage) (now : Z)
    (companies : list record) (batch_size : Z) (db : table) :
  0 < batch_size ->
  exists db' total_inserted,
    insert_companies_batch execute_values now companies batch_size db
    = Some (db', total_inserted)
    /\ (total_inserted <= length companies)%nat
    /\ ((forall d values, is_Some (execute_values query d values 100)) ->
        total_inserted = length companies).
Proof.
  intros Hb. rewrite insert_companies_batch_chunks by done.
  assert (0 < Z.to_nat batch_size)%nat as Hn by lia.
  destruct (insert_batches execute_values now
              (chunks (Z.to_nat batch_size) companies) db 0)
    as [db' n] eqn:Hrun.
  exists db', n. split; [done |]. split.
  - pose proof (insert_batches_count execute_values now
                  (chunks (Z.to_nat batch_size) companies) db 0) as Hc.
    rewrite Hrun, concat_chunks in Hc by done. simpl in Hc. lia.
  - intros Hok.
    pose proof (insert_batches_all_stored execute_values now
                  (chunks (Z.to_nat batch_size) companies) Hok db 0) as Hc.
    rewrite Hrun, concat_chunks in Hc by done. simpl in Hc. lia.
Qed.

Lemma company_count_bounds_witness :
  exists db' total_inserted,
    insert_companies_batch (fun _ d _ _ => Some d) 0
      [bare_company_record; nameless_company_record; bare_company_record]
      2 []
    = Some (db', total_inserted)
    /\ (total_inserted
        <= length [bare_company_record; nameless_company_record;
                   bare_company_record])%nat
    /\ ((forall (d : table) (values : list tuple),
           is_Some ((fun _ d _ _ => Some d) query d values 100)) ->
        total_inserted
        = length [bare_company_record; nameless_company_record;
                  bare_company_record]).
Proof.
  apply (company_count_bounds (fun _ d _ _ => Some d) 0
           [bare_company_record; nameless_company_record;
            bare_company_record] 2 []).
  lia.
Defined.

(** X24. The tuple of a company depends on the fourteen attributes that
    the insert reads and on nothing else: any other attribute of the
    record, such as [revenue_usd_m], which the reader fills, is never
    sent to the database. *)
Theorem unwritten_attributes (now : Z) (company : record) (k : string)
    (v : value) :
  k ∉ written_attributes ->
  company_values now (<[k := v]> company) = company_values now company.
Proof.
  intros Hk.
  assert (forall a, a ∈ written_attributes ->
                    <[k := v]> company !! a = company !! a) as Hget.
  { intros a Ha. apply lookup_insert_ne. by intros ->. }
  unfold company_values, Py.get.
  rewrite !Hget by decide_by_vm. reflexivity.
Qed.

Lemma unwritten_attributes_witness :
  company_values 0 (<["revenue_usd_m" := VStr "12.5"]> bare_company_record)
  = company_values 0 bare_company_record.
Proof.
  apply (unwritten_attributes 0 bare_company_record "revenue_usd_m").
  decide_by_vm.
Defined.


(** X26. With the statement as it is written, [main] leaves the table as
    it found it, while its summary reports every company that passed the
    pre-check as inserted. *)
Theorem main_stores_nothing (int_of_float : string -> parsed)
    (LOWER : string -> string) (now : Z) (rows : list raw_record)
    (db : table) :
  exists s,
    main int_of_float LOWER Sql.execute_values now rows db = Some (db, s)
    /\ companies_inserted s
       = length (List.filter (is_new LOWER db)
                             (read_enriched_csv int_of_float rows)).
Proof.
  unfold main.
  rewrite (process_companies_filter LOWER _ db) by apply reader_named.
  cbn [mbind option_bind].
  destruct (List.filter (is_new LOWER db) _) as [|c cs] eqn:Hnew.
  - cbn [mbind option_bind]. by eexists.
  - rewrite insert_companies_batch_chunks by lia.
    rewrite company_batches_store_nothing by (apply chunks_nonempty; lia).
    cbn [mbind option_bind]. by eexists.
Qed.

End CompanyMore.

(** * The entry point of the people script *)

Module MainMore.
Import Sql People Spec Terms Sample.

(** X27. [main] of the people script takes the prepared files in order
    and stops at the first run that raises: the table is as that run
    left it, and the files after it are not read. *)
Theorem main_stops_at_first_failure (execute_values : storage)
    (before after : list (bool * list raw_record)) (connected : bool)
    (prepared : list raw_record) (db db1 db2 : table)
    (outcomes : list outcome) :
  main execute_values before db = (db1, outcomes) ->
  forallb completed outcomes = true ->
  insert_from_csv_fast execute_values connected prepared 1000 db1
  = (db2, Raised) ->
  main execute_values (before ++ (connected, prepared) :: after) db
  = (db2, outcomes ++ [Raised]).
Proof.
  revert db db1 outcomes.
  induction before as [|[c0 p0] before IH]; intros db db1 outcomes Hrun Hall Hfail.
  - injection Hrun as <- <-. cbn [app main]. by rewrite Hfail.
  - cbn [app main] in *.
    destruct (insert_from_csv_fast execute_values c0 p0 1000 db)
      as [db' [n|]].
    + destruct (main execute_values before db') as [db'' log] eqn:Hm.
      injection Hrun as <- <-. cbn [forallb completed andb] in Hall.
      by rewrite (IH db' db'' log Hm Hall Hfail).
    + injection Hrun as <- <-. discriminate.
Qed.

Lemma main_stops_at_first_failure_witness :
  main Sql.execute_values
    ([(true, [ann; bob])] ++ (true, [cy; cy]) :: [(true, [dee])]) []
  = ((main Sql.execute_values [(true, [ann; bob])] []).1,
     [Completed 2] ++ [Raised]).
Proof.
  apply (main_stops_at_first_failure Sql.execute_values
           [(true, [ann; bob])] [(true, [dee])] true [cy; cy] []
           (main Sql.execute_values [(true, [ann; bob])] []).1).
  - decide_by_vm.
  - reflexivity.
  - decide_by_vm.
Defined.

End MainMore.
